(** * fig_data_challenge: the menu ETL job of [main.py]

    A shallow embedding of the one-shot job in
    [src/fig_data_challenge/main.py]: the Cleaner (left join, [valid_from]
    derivation, null filter, projection, [unique]), the Normalizer (five
    projections) and the Loader (append writes, read-back of generated keys,
    foreign-key resolution).

    Data frames are lists of rows, a nullable cell is an [option].  The
    operations of the data-frame library the script calls are modelled as
    the release the script is written against behaves (the script uses
    [replace(mapping, return_dtype=...)], the pre-1.0 signature):
    - [join(how='left')] keeps the left order, pairs a left row with every
      matching right row, and a null key matches nothing;
    - [str.to_datetime(fmt)] is strict: a non-null string that does not
      match the format raises;
    - [with_columns(series)] attaches a column by position; a series of
      length one is repeated to the frame's height, any other length
      mismatch raises;
    - [unique()] keeps one copy of each row, in an unspecified order;
    - [replace(mapping, return_dtype=Int64)] maps the keys of the mapping and
      casts every other value to the return type, a failed cast giving null;
    - [read_database] infers no column type from a table without rows, and a
      join on such columns raises.
*)

From Stdlib Require Import String Ascii List ZArith Bool Lia Permutation Sorted.
From Stdlib Require OrderedTypeEx.
Import ListNotations.
Open Scope string_scope.
Open Scope Z_scope.
Open Scope list_scope.

(** ** Errors *)

(** What the script can die of: a failed conversion, a column of the wrong
    length, a constraint of the destination table. *)
Inductive error : Type :=
| ComputeError
| ShapeError
| IntegrityError.

Inductive result (A : Type) : Type :=
| Ok (a : A)
| Err (e : error).

Arguments Ok {A} a.
Arguments Err {A} e.

Definition bind {A B} (m : result A) (f : A -> result B) : result B :=
  match m with
  | Ok a => f a
  | Err e => Err e
  end.

Notation "x <- m ;; k" := (bind m (fun x => k))
  (at level 61, m at next level, right associativity).

(** ** Cells and keys *)

Definition cell := option string.

Definition is_not_null {A} (c : option A) : bool :=
  match c with Some _ => true | None => false end.

Definition cell_eq_dec (a b : cell) : {a = b} + {a <> b}.
Proof. decide equality. apply string_dec. Defined.

(** Join keys: equal non-null values match, a null matches nothing. *)
Definition str_key_eqb (a b : cell) : bool :=
  match a, b with
  | Some x, Some y => String.eqb x y
  | _, _ => false
  end.

Definition int_key_eqb (a b : option Z) : bool :=
  match a, b with
  | Some x, Some y => Z.eqb x y
  | _, _ => false
  end.

(** ** Frame operations *)

(** [df.join(other, how='left', ...)]: a joined row is the left row with the
    matched right row; [None] stands for the right columns all null.  The
    rows one left row gives: *)
Definition join_rows {L R} (matches : L -> R -> bool) (r : list R) (x : L)
    : list (L * option R) :=
  match filter (matches x) r with
  | [] => [(x, None)]
  | ms => map (fun y => (x, Some y)) ms
  end.

Definition left_join {L R} (matches : L -> R -> bool)
    (l : list L) (r : list R) : list (L * option R) :=
  flat_map (join_rows matches r) l.

(** A column read off a joined row's right side. *)
Definition right_col {L R A} (f : R -> option A) (j : L * option R) : option A :=
  match snd j with
  | Some y => f y
  | None => None
  end.

(** [df.with_columns(series)]: the series becomes a new column. *)
Definition with_columns {A B} (df : list A) (s : list B) : result (list (A * B)) :=
  let height := length df in
  let s' := match s with
            | [x] => if (1 <? height)%nat then repeat x height else s
            | _ => s
            end in
  if (length s' =? height)%nat then Ok (combine df s')
  else if ((height =? 0)%nat && (length s' =? 1)%nat)%bool then Ok []
  else Err ShapeError.

(** The order in which [unique()] hands back the rows it keeps is not
    specified; a row order is any rearrangement. *)
Record row_order : Type := {
  reorder : forall A : Type, list A -> list A;
  reorder_perm : forall (A : Type) (l : list A), Permutation (reorder A l) l
}.

Definition first_seen : row_order :=
  {| reorder := fun _ l => l; reorder_perm := fun _ l => Permutation_refl l |}.


Definition unique (o : row_order) {A} (dec : forall x y : A, {x = y} + {x <> y})
    (l : list A) : list A :=
  reorder o A (nodup dec l).

(** [df.sort(...)]: ascending, by insertion. *)
Fixpoint insert_by {A} (le : A -> A -> bool) (x : A) (l : list A) : list A :=
  match l with
  | [] => [x]
  | y :: t => if le x y then x :: l else y :: insert_by le x t
  end.

Fixpoint sort_by {A} (le : A -> A -> bool) (l : list A) : list A :=
  match l with
  | [] => []
  | x :: t => insert_by le x (sort_by le t)
  end.

(** Ascending order on a nullable column, nulls first. *)
Definition opt_leb {A} (le : A -> A -> bool) (a b : option A) : bool :=
  match a, b with
  | None, _ => true
  | Some _, None => false
  | Some x, Some y => le x y
  end.

Definition cell_leb : cell -> cell -> bool := opt_leb String.leb.

(** ** The two sheets *)

(** A row of the sheet 'Restaurant Menu Items'.  [blank_header] is the
    column whose header is the empty string; [other_columns] are the cells
    the script never reads. *)
Record menu_item_raw : Type := {
  Product_Name : cell;
  Ingredients_on_Product_Page : cell;
  Allergens_and_Warnings : cell;
  URL_of_primary_product_picture : cell;
  Store : cell;
  Product_category : cell;
  Fig_Category_1 : cell;
  blank_header : cell;
  other_columns : list cell
}.

(** A row of the sheet 'Reference categories'. *)
Record category_raw : Type := {
  Restaurant_name : cell;
  Restaurant_original_category : cell;
  reference_columns : list cell
}.

Record datetime : Type := {
  year : Z; month : Z; day : Z;
  hour : Z; minute : Z; second : Z; microsecond : Z
}.

(** [datetime(2023, 1, 1, 0, 0, 0, 0)] *)
Definition default_valid_from : datetime :=
  {| year := 2023; month := 1; day := 1;
     hour := 0; minute := 0; second := 0; microsecond := 0 |}.

(** A row of [menu_items_clean], under its renamed columns. *)
Record clean_row : Type := {
  name : cell;
  ingredients : cell;
  allergens : cell;
  picture : cell;
  restaurant : cell;
  category : cell;
  valid_from : option datetime
}.

Definition datetime_eq_dec (a b : datetime) : {a = b} + {a <> b}.
Proof. decide equality; apply Z.eq_dec. Defined.

Definition clean_row_eq_dec (a b : clean_row) : {a = b} + {a <> b}.
Proof.
  decide equality; try apply cell_eq_dec.
  decide equality. apply datetime_eq_dec.
Defined.

(** [left_on=['Store', 'Product category'],
     right_on=['Restaurant name', 'Restaurant original category']] *)
Definition on_store_category (l : menu_item_raw) (r : category_raw) : bool :=
  str_key_eqb (Store l) (Restaurant_name r)
  && str_key_eqb (Product_category l) (Restaurant_original_category r).

Definition joined_row : Type := (menu_item_raw * option category_raw)%type.

(** [.fill_null(value)] *)
Definition fill_null {A} (value : A) (s : list (option A)) : list (option A) :=
  map (fun v => match v with Some _ => v | None => Some value end) s.

(** The three [is_not_null] predicates of [.filter(...)]. *)
Definition mandatory (l : menu_item_raw) : bool :=
  is_not_null (Product_Name l)
  && is_not_null (Ingredients_on_Product_Page l)
  && is_not_null (Store l).

(** A sheet row with its three mandatory cells. *)
Definition complete (r : menu_item_raw) : Prop :=
  Product_Name r <> None
  /\ Ingredients_on_Product_Page r <> None
  /\ Store r <> None.

(** [.select(...).rename({...})]: the seven columns kept, under their new
    names.  Six of them are columns of the menu-items sheet; on a joined row
    they are read off the left side. *)
Definition project (l : menu_item_raw) (d : option datetime) : clean_row :=
  {| name := Product_Name l;
     ingredients := Ingredients_on_Product_Page l;
     allergens := Allergens_and_Warnings l;
     picture := URL_of_primary_product_picture l;
     restaurant := Store l;
     category := Fig_Category_1 l;
     valid_from := d |}.

Definition select_rename (r : joined_row * option datetime) : clean_row :=
  project (fst (fst r)) (snd r).

(** ** Normalized projections *)

(** A row of [menu_items]: columns 'name', 'restaurant', 'category'. *)
Record menu_item : Type := {
  mi_name : cell;
  mi_restaurant : cell;
  mi_category : cell
}.

(** A row of [pictures], [ingredients] or [allergens]: columns 'product',
    'restaurant' and the one text column of the table. *)
Record child : Type := {
  product : cell;
  ch_restaurant : cell;
  ch_text : cell
}.

Definition menu_item_eq_dec (a b : menu_item) : {a = b} + {a <> b}.
Proof. decide equality; apply cell_eq_dec. Defined.

Definition child_eq_dec (a b : child) : {a = b} + {a <> b}.
Proof. decide equality; apply cell_eq_dec. Defined.

(** ** The destination tables *)

(** [class Restaurant]: [id] is the primary key, [name] a plain
    [Column(String)]: nullable, no unique constraint. *)
Record Restaurant : Type := {
  r_id : Z;
  r_name : cell
}.

(** [class MenuItem]: [restaurant_id] is declared [nullable=False] with
    [ForeignKey('restaurants.id')]. *)
Record MenuItem : Type := {
  m_id : Z;
  m_restaurant_id : option Z;
  m_name : cell;
  m_category : cell
}.

(** [class Ingredient], [class Allergen], [class Picture]: [item_id] is
    declared [nullable=False] with [ForeignKey('menu_items.id')]. *)
Record Child : Type := {
  c_id : Z;
  c_item_id : option Z;
  c_text : cell
}.

(** A table with its key sequence. *)
Record table (A : Type) : Type := {
  rows : list A;
  next_id : Z
}.

Arguments rows {A} t.
Arguments next_id {A} t.

Record database : Type := {
  restaurants_tbl : table Restaurant;
  menu_items_tbl : table MenuItem;
  ingredients_tbl : table Child;
  allergens_tbl : table Child;
  pictures_tbl : table Child
}.

Definition empty_table {A} : table A := {| rows := []; next_id := 1 |}.

Definition empty_database : database :=
  {| restaurants_tbl := empty_table; menu_items_tbl := empty_table;
     ingredients_tbl := empty_table; allergens_tbl := empty_table;
     pictures_tbl := empty_table |}.

(** Append with generated keys: the rows get the next values of the
    table's sequence, in frame order. *)
Fixpoint number_from {A B} (mk : Z -> A -> B) (i : Z) (l : list A) : list B :=
  match l with
  | [] => []
  | x :: t => mk i x :: number_from mk (i + 1) t
  end.

Definition append {A B} (mk : Z -> A -> B) (t : table B) (l : list A) : table B :=
  {| rows := rows t ++ number_from mk (next_id t) l;
     next_id := next_id t + Z.of_nat (length l) |}.

(** A row of [menu_items_fk]. *)
Record menu_item_fk : Type := {
  restaurant_id : option Z;
  fk_name : cell;
  fk_category : cell
}.

(** A row of [ingredients_fk], [allergens_fk] or [pictures_fk]. *)
Record child_fk : Type := {
  item_id : option Z;
  fk_text : cell
}.

(** [{k: v for k, v in zip(restaurants_pk['name'], restaurants_pk['id'])}]:
    the pairs in table order; a later pair overrides an earlier one with the
    same key. *)
Definition id_map : Type := list (cell * Z).

Definition restaurants_id_map (restaurants_pk : list Restaurant) : id_map :=
  combine (map r_name restaurants_pk) (map r_id restaurants_pk).

Definition dict_get (m : id_map) (k : cell) : option Z :=
  match find (fun kv => if cell_eq_dec (fst kv) k then true else false) (rev m) with
  | Some kv => Some (snd kv)
  | None => None
  end.

(** [.sort('restaurant_id', 'name')]: by id, then by name, nulls first. *)
Definition by_restaurant_id_name (a b : menu_item_fk) : bool :=
  if opt_leb Z.leb (restaurant_id a) (restaurant_id b)
  then if opt_leb Z.leb (restaurant_id b) (restaurant_id a)
       then cell_leb (fk_name a) (fk_name b)
       else true
  else false.

(** [left_on=['product', 'restaurant_id'], right_on=['name', 'restaurant_id']] *)
Definition on_product_restaurant (l : option Z * child) (r : MenuItem) : bool :=
  str_key_eqb (product (snd l)) (m_name r)
  && int_key_eqb (fst l) (m_restaurant_id r).

(** The constraints the tables are created with. *)
Definition not_null {A} (col : A -> option Z) (frame : list A) : bool :=
  forallb (fun r => is_not_null (col r)) frame.

Definition references {A} (col : A -> option Z) (ids : list Z) (frame : list A) : bool :=
  forallb (fun r => match col r with
                    | Some i => existsb (Z.eqb i) ids
                    | None => true
                    end) frame.

Definition mk_Restaurant (i : Z) (n : cell) : Restaurant :=
  {| r_id := i; r_name := n |}.

Definition mk_MenuItem (i : Z) (r : menu_item_fk) : MenuItem :=
  {| m_id := i;
     m_restaurant_id := restaurant_id r;
     m_name := fk_name r;
     m_category := fk_category r |}.

Definition mk_Child (i : Z) (r : child_fk) : Child :=
  {| c_id := i;
     c_item_id := item_id r;
     c_text := fk_text r |}.

(** [restaurants.write_database(..., if_table_exists='append')]: the table
    has no constraint a frame of names can break. *)
Definition write_restaurants (db : database) (frame : list cell) : database :=
  {| restaurants_tbl := append mk_Restaurant (restaurants_tbl db) frame;
     menu_items_tbl := menu_items_tbl db;
     ingredients_tbl := ingredients_tbl db;
     allergens_tbl := allergens_tbl db;
     pictures_tbl := pictures_tbl db |}.

(** [menu_items_fk.write_database(...)]: rejected as a whole when a
    [restaurant_id] is null or names no restaurant. *)
Definition write_menu_items (db : database) (frame : list menu_item_fk)
    : result database :=
  if not_null restaurant_id frame
     && references restaurant_id (map r_id (rows (restaurants_tbl db))) frame
  then Ok {| restaurants_tbl := restaurants_tbl db;
             menu_items_tbl := append mk_MenuItem (menu_items_tbl db) frame;
             ingredients_tbl := ingredients_tbl db;
             allergens_tbl := allergens_tbl db;
             pictures_tbl := pictures_tbl db |}
  else Err IntegrityError.

(** The write of a child frame into its table: rejected as a whole when an
    [item_id] is null or names no menu item. *)
Definition write_child (menu_items_pk : list MenuItem) (t : table Child)
    (frame : list child_fk) : result (table Child) :=
  if not_null item_id frame && references item_id (map m_id menu_items_pk) frame
  then Ok (append mk_Child t frame)
  else Err IntegrityError.

(** ** Instances of the two library conversions, to run the job *)

Definition digit (c : ascii) : option Z :=
  let n := Z.of_N (N_of_ascii c) in
  if (48 <=? n) && (n <=? 57) then Some (n - 48) else None.

Fixpoint digits_from (acc : Z) (s : string) : option Z :=
  match s with
  | EmptyString => Some acc
  | String c t =>
      match digit c with
      | Some d => digits_from (10 * acc + d) t
      | None => None
      end
  end.

Definition digits (s : string) : option Z :=
  match s with
  | EmptyString => None
  | _ => digits_from 0 s
  end.

Definition days_in_month (y m : Z) : Z :=
  if (m =? 2) then
    if ((y mod 4 =? 0) && negb (y mod 100 =? 0)) || (y mod 400 =? 0) then 29 else 28
  else if (m =? 4) || (m =? 6) || (m =? 9) || (m =? 11) then 30
  else 31.

(** The format 'New - %m/%d/%Y' on zero-padded input only, as in
    'New - 03/15/2024'; the library's parser takes more (a month or a day
    of one digit).  It serves to run the job on the sample sheets. *)
Definition strptime_padded (s : string) : option datetime :=
  if String.prefix "New - " s && (String.length s =? 16)%nat
     && String.eqb (substring 8 1 s) "/" && String.eqb (substring 11 1 s) "/"
  then
    match digits (substring 6 2 s), digits (substring 9 2 s),
          digits (substring 12 4 s) with
    | Some m, Some d, Some y =>
        if (1 <=? m) && (m <=? 12) && (1 <=? d) && (d <=? days_in_month y m)
        then Some {| year := y; month := m; day := d;
                     hour := 0; minute := 0; second := 0; microsecond := 0 |}
        else None
    | _, _, _ => None
    end
  else None.

(** The cast of a string to Int64 on plain decimal input, with or without
    a sign. *)
Definition decimal_int64 (s : string) : option Z :=
  let in_range (z : Z) :=
    if (- 2 ^ 63 <=? z) && (z <? 2 ^ 63) then Some z else None in
  match s with
  | String "-" t => match digits t with Some n => in_range (- n) | None => None end
  | String "+" t => match digits t with Some n => in_range n | None => None end
  | _ => match digits s with Some n => in_range n | None => None end
  end.

(** ** The job *)

Section Job.

(** [strptime] is the library's parser for the format
    'New - %m/%d/%Y'; [cast_int64] its cast of a string to Int64, null on
    failure; [o] the order [unique()] returns rows in. *)
Variable strptime : string -> option datetime.
Variable cast_int64 : string -> option Z.
Variable o : row_order.

(** [.str.to_datetime('New - %m/%d/%Y')]: a null stays null, a string that
    does not parse raises. *)
Fixpoint to_datetime (s : list cell) : result (list (option datetime)) :=
  match s with
  | [] => Ok []
  | None :: t => ds <- to_datetime t ;; Ok (None :: ds)
  | Some x :: t =>
      match strptime x with
      | Some d => ds <- to_datetime t ;; Ok (Some d :: ds)
      | None => Err ComputeError
      end
  end.

(** The series [menu_items_raw[''] ... .alias('valid_from')]. *)
Definition valid_from_series (menu_items_raw : list menu_item_raw)
    : result (list (option datetime)) :=
  ds <- to_datetime (map blank_header menu_items_raw) ;;
  Ok (fill_null default_valid_from ds).

(** What that series holds for one row of the sheet, when it is built. *)
Definition valid_from_of (l : menu_item_raw) : option datetime :=
  match blank_header l with
  | Some x => strptime x
  | None => Some default_valid_from
  end.

(** The rows the Cleaner keeps, read off the join result: each carries the
    date of its own left side. *)
Definition cleaned_of (joined : list joined_row) : list clean_row :=
  map (fun j => project (fst j) (valid_from_of (fst j)))
    (filter (fun j => mandatory (fst j)) joined).

(** Lines 67-104. *)
Definition menu_items_clean (menu_items_raw : list menu_item_raw)
    (categories_raw : list category_raw) : result (list clean_row) :=
  let joined := left_join on_store_category menu_items_raw categories_raw in
  s <- valid_from_series menu_items_raw ;;
  df <- with_columns joined s ;;
  Ok (unique o clean_row_eq_dec
        (map select_rename
           (filter (fun r => mandatory (fst (fst r))) df))).

(** The same chain without its [.join(...)] call: the series is attached to
    the raw menu-items frame itself. *)
Definition menu_items_clean_without_join (menu_items_raw : list menu_item_raw)
    : result (list clean_row) :=
  s <- valid_from_series menu_items_raw ;;
  df <- with_columns menu_items_raw s ;;
  Ok (unique o clean_row_eq_dec
        (map (fun r => project (fst r) (snd r))
           (filter (fun r => mandatory (fst r)) df))).

(** Lines 108-141. *)
Definition restaurants (menu_items_clean : list clean_row) : list cell :=
  sort_by cell_leb (unique o cell_eq_dec (map restaurant menu_items_clean)).

Definition menu_items (menu_items_clean : list clean_row) : list menu_item :=
  unique o menu_item_eq_dec
    (map (fun c => {| mi_name := name c; mi_restaurant := restaurant c;
                      mi_category := category c |}) menu_items_clean).

Definition pictures (menu_items_clean : list clean_row) : list child :=
  unique o child_eq_dec
    (map (fun c => {| product := name c; ch_restaurant := restaurant c;
                      ch_text := picture c |}) menu_items_clean).

(** The frames [ingredients] and [allergens] of the script; the plain names
    are the columns of [clean_row] here. *)
Definition ingredients_of (menu_items_clean : list clean_row) : list child :=
  unique o child_eq_dec
    (map (fun c => {| product := name c; ch_restaurant := restaurant c;
                      ch_text := ingredients c |}) menu_items_clean).

Definition allergens_of (menu_items_clean : list clean_row) : list child :=
  unique o child_eq_dec
    (map (fun c => {| product := name c; ch_restaurant := restaurant c;
                      ch_text := allergens c |}) menu_items_clean).

(** [pl.col('restaurant').replace(restaurants_id_map, return_dtype=pl.Int64)]
    on one value: a key of the mapping becomes its id, any other value is
    cast. *)
Definition replace (m : id_map) (v : cell) : option Z :=
  match dict_get m v with
  | Some i => Some i
  | None => match v with
            | Some s => cast_int64 s
            | None => None
            end
  end.

(** Lines 177-187. *)
Definition menu_items_fk (menu_items : list menu_item) (m : id_map)
    : list menu_item_fk :=
  sort_by by_restaurant_id_name
    (map (fun r => {| restaurant_id := replace m (mi_restaurant r);
                      fk_name := mi_name r;
                      fk_category := mi_category r |}) menu_items).

(** Lines 192-208, 213-229 and 234-250: the three chains are the same up to
    the name of the text column.  [child_fk_of] is the frame such a chain
    yields when its join returns; [child_fk_chain] below is the chain with
    the case in which the join raises. *)
Definition child_fk_of (children : list child) (m : id_map)
    (menu_items_pk : list MenuItem) : list child_fk :=
  map (fun j => {| item_id := right_col (fun r => Some (m_id r)) j;
                   fk_text := ch_text (snd (fst j)) |})
    (left_join on_product_restaurant
       (map (fun c => (replace m (ch_restaurant c), c)) children)
       menu_items_pk).

(** The three frames of the script, when their joins return. *)
Definition ingredients_fk := child_fk_of.
Definition allergens_fk := child_fk_of.
Definition pictures_fk := child_fk_of.

(** The chain as the script runs it.  [menu_items_pk] is what
    [pl.read_database] read back; from a table without rows it infers no
    column type, and the [.join(menu_items_pk, ...)] of lines 200, 221 and
    242 raises on its untyped key columns, whatever the left frame holds. *)
Definition child_fk_chain (children : list child) (m : id_map)
    (menu_items_pk : list MenuItem) : result (list child_fk) :=
  match menu_items_pk with
  | [] => Err ComputeError
  | _ :: _ => Ok (child_fk_of children m menu_items_pk)
  end.

(** Lines 168-252: the loader, tables taken as created with the declared
    columns.  Each child frame is built, then written, in the order
    ingredients, allergens, pictures. *)
Definition load (db : database) (menu_items_clean : list clean_row)
    : result database :=
  let db1 := write_restaurants db (restaurants menu_items_clean) in
  let m := restaurants_id_map (rows (restaurants_tbl db1)) in
  db2 <- write_menu_items db1 (menu_items_fk (menu_items menu_items_clean) m) ;;
  let menu_items_pk := rows (menu_items_tbl db2) in
  frame_ing <- child_fk_chain (ingredients_of menu_items_clean) m menu_items_pk ;;
  t_ing <- write_child menu_items_pk (ingredients_tbl db2) frame_ing ;;
  frame_all <- child_fk_chain (allergens_of menu_items_clean) m menu_items_pk ;;
  t_all <- write_child menu_items_pk (allergens_tbl db2) frame_all ;;
  frame_pic <- child_fk_chain (pictures menu_items_clean) m menu_items_pk ;;
  t_pic <- write_child menu_items_pk (pictures_tbl db2) frame_pic ;;
  Ok {| restaurants_tbl := restaurants_tbl db2;
        menu_items_tbl := menu_items_tbl db2;
        ingredients_tbl := t_ing;
        allergens_tbl := t_all;
        pictures_tbl := t_pic |}.

(** The script from the sheets to the loaded database. *)
Definition main (db : database) (menu_items_raw : list menu_item_raw)
    (categories_raw : list category_raw) : result database :=
  clean <- menu_items_clean menu_items_raw categories_raw ;;
  load db clean.

End Job.

(** ** Sample sheets *)

Definition burger : menu_item_raw :=
  {| Product_Name := Some "Burger";
     Ingredients_on_Product_Page := Some "beef, bun";
     Allergens_and_Warnings := None;
     URL_of_primary_product_picture := None;
     Store := Some "Joe's Diner";
     Product_category := Some "Entrees";
     Fig_Category_1 := Some "Main";
     blank_header := None;
     other_columns := [] |}.

Definition fries : menu_item_raw :=
  {| Product_Name := Some "Fries";
     Ingredients_on_Product_Page := Some "potato, salt";
     Allergens_and_Warnings := Some "none";
     URL_of_primary_product_picture := Some "http://img/fries.png";
     Store := Some "Joe's Diner";
     Product_category := Some "Sides";
     Fig_Category_1 := Some "Side";
     blank_header := Some "New - 03/15/2024";
     other_columns := [] |}.

(** [burger] again, with a cell in a column outside the selection. *)
Definition burger_promo : menu_item_raw :=
  {| Product_Name := Some "Burger";
     Ingredients_on_Product_Page := Some "beef, bun";
     Allergens_and_Warnings := None;
     URL_of_primary_product_picture := None;
     Store := Some "Joe's Diner";
     Product_category := Some "Entrees";
     Fig_Category_1 := Some "Main";
     blank_header := None;
     other_columns := [Some "promo"] |}.

(** A row without 'Product Name'. *)
Definition nameless : menu_item_raw :=
  {| Product_Name := None;
     Ingredients_on_Product_Page := Some "water";
     Allergens_and_Warnings := None;
     URL_of_primary_product_picture := None;
     Store := Some "Joe's Diner";
     Product_category := Some "Drinks";
     Fig_Category_1 := Some "Drink";
     blank_header := None;
     other_columns := [] |}.

(** A row whose date cell does not follow the format. *)
Definition undated : menu_item_raw :=
  {| Product_Name := Some "Soup";
     Ingredients_on_Product_Page := Some "leek";
     Allergens_and_Warnings := None;
     URL_of_primary_product_picture := None;
     Store := Some "Joe's Diner";
     Product_category := Some "Entrees";
     Fig_Category_1 := Some "Main";
     blank_header := Some "TBD";
     other_columns := [] |}.

Definition entrees : category_raw :=
  {| Restaurant_name := Some "Joe's Diner";
     Restaurant_original_category := Some "Entrees";
     reference_columns := [Some "Mains"] |}.

Definition sides : category_raw :=
  {| Restaurant_name := Some "Joe's Diner";
     Restaurant_original_category := Some "Sides";
     reference_columns := [Some "Sides and snacks"] |}.

(** ** Sample frames and tables *)

Definition burger_item : menu_item :=
  {| mi_name := Some "Burger";
     mi_restaurant := Some "Joe's Diner";
     mi_category := Some "Main" |}.

Definition burger_ingredients : child :=
  {| product := Some "Burger";
     ch_restaurant := Some "Joe's Diner";
     ch_text := Some "beef, bun" |}.

(** A restaurants table that knows the diner under another spelling. *)
Definition lowercase_db : database :=
  {| restaurants_tbl :=
       {| rows := [{| r_id := 1; r_name := Some "joe's diner" |}]; next_id := 2 |};
     menu_items_tbl := empty_table;
     ingredients_tbl := empty_table;
     allergens_tbl := empty_table;
     pictures_tbl := empty_table |}.

Definition lowercase_map : id_map :=
  restaurants_id_map (rows (restaurants_tbl lowercase_db)).

(** A menu-items table read back with one row, the fries of restaurant 1. *)
Definition fries_row : MenuItem :=
  {| m_id := 1; m_restaurant_id := Some 1;
     m_name := Some "Fries"; m_category := Some "Side" |}.

(** The cleaned table of the sheet [burger; fries]. *)
Definition sample_clean : list clean_row :=
  [project burger (Some default_valid_from);
   project fries (strptime_padded "New - 03/15/2024")].

(** ** Table invariants *)

(** The keys of a table are distinct and were all drawn from its sequence. *)
Definition keyed {A} (id : A -> Z) (t : table A) : Prop :=
  NoDup (map id (rows t)) /\ forall r, In r (rows t) -> id r < next_id t.

Definition keys_unique (db : database) : Prop :=
  keyed r_id (restaurants_tbl db)
  /\ keyed m_id (menu_items_tbl db)
  /\ keyed c_id (ingredients_tbl db)
  /\ keyed c_id (allergens_tbl db)
  /\ keyed c_id (pictures_tbl db).

(** Every child row names a row of [menu_items_pk]. *)
Definition names_menu_item (menu_items_pk : list MenuItem) (t : table Child) : Prop :=
  forall c, In c (rows t) ->
    exists mi, In mi menu_items_pk /\ c_item_id c = Some (m_id mi).

(** Every [restaurant_id] names a restaurant row, every [item_id] a
    menu-item row. *)
Definition referential_integrity (db : database) : Prop :=
  (forall mi, In mi (rows (menu_items_tbl db)) ->
     exists r, In r (rows (restaurants_tbl db))
               /\ m_restaurant_id mi = Some (r_id r))
  /\ names_menu_item (rows (menu_items_tbl db)) (ingredients_tbl db)
  /\ names_menu_item (rows (menu_items_tbl db)) (allergens_tbl db)
  /\ names_menu_item (rows (menu_items_tbl db)) (pictures_tbl db).

(** * Properties *)

(** ** Left joins *)

Section LeftJoin.

Context {L R : Type} (matches : L -> R -> bool).

Local Abbreviation block x r := (join_rows matches r x).

Lemma block_fst x r j : In j (block x r) -> fst j = x.
Proof.
  unfold join_rows. destruct (filter (matches x) r) as [|y ms].
  - intros [<-|[]]. reflexivity.
  - intros H. apply in_map_iff in H. destruct H as (z & <- & _). reflexivity.
Qed.

Lemma block_length x r : (1 <= length (block x r))%nat.
Proof.
  unfold join_rows. destruct (filter (matches x) r); simpl; lia.
Qed.

Lemma block_snd x r j :
  In j (block x r) ->
  match snd j with
  | Some y => In y r /\ matches x y = true
  | None => forall y, In y r -> matches x y = false
  end.
Proof.
  unfold join_rows. destruct (filter (matches x) r) as [|y ms] eqn:E.
  - intros [<-|[]]. simpl. intros y Hy.
    destruct (matches x y) eqn:M; [|reflexivity].
    assert (In y (filter (matches x) r)) by (apply filter_In; auto).
    rewrite E in H. destruct H.
  - intros H. apply in_map_iff in H. destruct H as (z & <- & Hz). simpl.
    rewrite <- E in Hz. apply filter_In in Hz. exact Hz.
Qed.

Lemma left_join_cons x l r :
  left_join matches (x :: l) r = block x r ++ left_join matches l r.
Proof. reflexivity. Qed.

(** Every joined row carries a row of the left frame. *)
Lemma in_left_join_fst l r j :
  In j (left_join matches l r) -> In (fst j) l.
Proof.
  unfold left_join. intros H. apply in_flat_map in H.
  destruct H as (x & Hx & Hj). apply (block_fst x r) in Hj. now subst.
Qed.

(** Its right side is a matching right row, or null when none matches. *)
Lemma in_left_join_snd l r j :
  In j (left_join matches l r) ->
  match snd j with
  | Some y => In y r /\ matches (fst j) y = true
  | None => forall y, In y r -> matches (fst j) y = false
  end.
Proof.
  unfold left_join. intros H. apply in_flat_map in H.
  destruct H as (x & Hx & Hj).
  pose proof (block_fst x r j Hj) as <-. now apply block_snd.
Qed.

(** A left row without a match is kept, with a null right side. *)
Lemma left_join_unmatched l r x :
  In x l -> (forall y, In y r -> matches x y = false) ->
  In (x, None) (left_join matches l r).
Proof.
  intros Hx Hno. unfold left_join. apply in_flat_map. exists x. split; [exact Hx|].
  unfold join_rows. destruct (filter (matches x) r) as [|y ms] eqn:E.
  - now left.
  - assert (In y (filter (matches x) r)) as H by (rewrite E; now left).
    apply filter_In in H. destruct H as [Hy M]. rewrite (Hno y Hy) in M. discriminate.
Qed.

(** A left join never loses a left row. *)
Lemma left_join_length l r :
  (length l <= length (left_join matches l r))%nat.
Proof.
  induction l as [|x l IH]; [simpl; lia|].
  rewrite left_join_cons, length_app. pose proof (block_length x r). simpl. lia.
Qed.

(** With as many rows as the left frame, it is the left frame row by row. *)
Lemma left_join_same_length l r :
  length (left_join matches l r) = length l ->
  map fst (left_join matches l r) = l.
Proof.
  induction l as [|x l IH]; [reflexivity|].
  rewrite left_join_cons, length_app, map_app. simpl. intros Hlen.
  pose proof (block_length x r) as Hb.
  pose proof (left_join_length l r) as Hl.
  assert (length (block x r) = 1%nat) as H1 by lia.
  rewrite IH by lia.
  destruct (block x r) as [|j [|j' b]] eqn:E; try discriminate H1.
  assert (In j (block x r)) as Hj by (rewrite E; now left).
  apply block_fst in Hj. simpl. now rewrite Hj.
Qed.

(** A one-row left frame is on the left of every joined row. *)
Lemma left_join_single x r j :
  In j (left_join matches [x] r) -> fst j = x.
Proof.
  intros H. apply in_left_join_fst in H. destruct H as [H|[]]. now symmetry.
Qed.

End LeftJoin.

(** ** Attaching a column *)

Lemma combine_map_same {A B} (f : A -> B) (l : list A) :
  combine l (map f l) = map (fun a => (a, f a)) l.
Proof. induction l as [|a l IH]; simpl; [reflexivity|now rewrite IH]. Qed.

Lemma combine_repeat {A B} (x : B) (l : list A) :
  combine l (repeat x (length l)) = map (fun a => (a, x)) l.
Proof. induction l as [|a l IH]; simpl; [reflexivity|now rewrite IH]. Qed.

(** A series of the frame's height is attached row by row. *)
Lemma with_columns_same_length {A B} (df : list A) (s : list B) :
  length s = length df -> with_columns df s = Ok (combine df s).
Proof.
  intros H. unfold with_columns.
  assert (match s with
          | [x] => if (1 <? length df)%nat then repeat x (length df) else s
          | _ => s
          end = s) as ->.
  { destruct s as [|x [|y s]]; try reflexivity.
    simpl in H. rewrite <- H. reflexivity. }
  rewrite H, Nat.eqb_refl. reflexivity.
Qed.

(** A series of length one is repeated down a taller frame. *)
Lemma with_columns_unit {A B} (df : list A) (x : B) :
  (1 <= length df)%nat -> with_columns df [x] = Ok (map (fun a => (a, x)) df).
Proof.
  intros H. unfold with_columns.
  destruct (1 <? length df)%nat eqn:E.
  - rewrite repeat_length, Nat.eqb_refl, combine_repeat. reflexivity.
  - apply Nat.ltb_ge in E. assert (length df = 1%nat) as H1 by lia.
    destruct df as [|a [|b df]]; try discriminate H1. reflexivity.
Qed.

(** Any other length is refused. *)
Lemma with_columns_mismatch {A B} (df : list A) (s : list B) :
  length s <> length df -> length s <> 1%nat ->
  with_columns df s = Err ShapeError.
Proof.
  intros Hne H1. unfold with_columns.
  assert (match s with
          | [x] => if (1 <? length df)%nat then repeat x (length df) else s
          | _ => s
          end = s) as ->.
  { destruct s as [|x [|y s]]; try reflexivity. exfalso. apply H1. reflexivity. }
  apply Nat.eqb_neq in Hne. rewrite Hne.
  apply Nat.eqb_neq in H1. rewrite H1, andb_false_r. reflexivity.
Qed.

(** ** [unique] and [sort] *)

Lemma unique_In (o : row_order) {A} (dec : forall x y : A, {x = y} + {x <> y})
    (l : list A) (x : A) :
  In x (unique o dec l) <-> In x l.
Proof.
  unfold unique. split; intros H.
  - apply (Permutation_in x (reorder_perm o A (nodup dec l))) in H.
    now apply nodup_In in H.
  - apply (Permutation_in x (Permutation_sym (reorder_perm o A (nodup dec l)))).
    now apply nodup_In.
Qed.

Lemma unique_NoDup (o : row_order) {A} (dec : forall x y : A, {x = y} + {x <> y})
    (l : list A) :
  NoDup (unique o dec l).
Proof.
  unfold unique.
  apply (Permutation_NoDup (Permutation_sym (reorder_perm o A (nodup dec l)))).
  apply NoDup_nodup.
Qed.

(** Two runs of [unique] on one frame differ by a rearrangement only. *)
Lemma unique_perm (o1 o2 : row_order) {A}
    (dec : forall x y : A, {x = y} + {x <> y}) (l : list A) :
  Permutation (unique o1 dec l) (unique o2 dec l).
Proof.
  unfold unique.
  eapply Permutation_trans; [apply reorder_perm|].
  apply Permutation_sym, reorder_perm.
Qed.

Section Sorting.

Context {A : Type} (le : A -> A -> bool).

Let leP (a b : A) : Prop := le a b = true.

Lemma insert_by_perm x l : Permutation (insert_by le x l) (x :: l).
Proof.
  induction l as [|y t IH]; simpl; [reflexivity|].
  destruct (le x y); [reflexivity|].
  eapply Permutation_trans; [apply perm_skip, IH|apply perm_swap].
Qed.

Lemma sort_by_perm l : Permutation (sort_by le l) l.
Proof.
  induction l as [|x t IH]; simpl; [reflexivity|].
  eapply Permutation_trans; [apply insert_by_perm|now apply perm_skip].
Qed.

Hypothesis le_total : forall a b, le a b = false -> le b a = true.
Hypothesis le_trans : forall a b c, le a b = true -> le b c = true -> le a c = true.

Lemma insert_by_sorted x l :
  StronglySorted leP l -> StronglySorted leP (insert_by le x l).
Proof.
  induction 1 as [|y t Ht IH Hy]; simpl.
  - constructor; constructor.
  - destruct (le x y) eqn:E.
    + constructor; [now constructor|].
      constructor; [exact E|].
      eapply Forall_impl; [|exact Hy]. intros z Hz. unfold leP in *. eauto.
    + constructor; [exact IH|].
      apply Forall_forall. intros z Hz.
      apply (Permutation_in z (insert_by_perm x t)) in Hz.
      destruct Hz as [<-|Hz].
      * now apply le_total.
      * rewrite Forall_forall in Hy. now apply Hy.
Qed.

Lemma sort_by_sorted l : StronglySorted leP (sort_by le l).
Proof.
  induction l as [|x t IH]; simpl; [constructor|now apply insert_by_sorted].
Qed.

Hypothesis le_antisym : forall a b, le a b = true -> le b a = true -> a = b.

(** An ascending arrangement of given rows is unique. *)
Lemma sorted_perm_eq l1 l2 :
  StronglySorted leP l1 -> StronglySorted leP l2 -> Permutation l1 l2 ->
  l1 = l2.
Proof.
  intros S1. revert l2. induction S1 as [|a t1 St1 IH Ha]; intros l2 S2 P.
  - apply Permutation_nil in P. now subst.
  - destruct S2 as [|b t2 St2 Hb].
    + apply Permutation_sym, Permutation_nil in P. discriminate.
    + assert (a = b) as ->.
      { assert (In a (b :: t2)) as Ia by (apply (Permutation_in a P); now left).
        assert (In b (a :: t1)) as Ib
          by (apply (Permutation_in b (Permutation_sym P)); now left).
        destruct Ia as [Ia|Ia]; [now symmetry|].
        destruct Ib as [Ib|Ib]; [exact Ib|].
        rewrite Forall_forall in Ha, Hb. apply le_antisym; [now apply Ha|now apply Hb]. }
      f_equal. apply IH; [exact St2|]. now apply Permutation_cons_inv in P.
Qed.

(** Sorting forgets the order the rows came in. *)
Lemma sort_by_perm_eq l1 l2 :
  Permutation l1 l2 -> sort_by le l1 = sort_by le l2.
Proof.
  intros P. apply sorted_perm_eq; try apply sort_by_sorted.
  eapply Permutation_trans; [apply sort_by_perm|].
  eapply Permutation_trans; [exact P|]. apply Permutation_sym, sort_by_perm.
Qed.

End Sorting.

(** ** The order on names *)

Lemma string_leb_iff a b :
  String.leb a b = true <-> a = b \/ OrderedTypeEx.String_as_OT.lt a b.
Proof.
  unfold String.leb.
  destruct (String.compare a b) eqn:E.
  - split; [intros _|reflexivity]. left. now apply OrderedTypeEx.String_as_OT.cmp_eq.
  - split; [intros _|reflexivity]. right. now apply OrderedTypeEx.String_as_OT.cmp_lt.
  - split; [discriminate|]. intros [H|H].
    + apply OrderedTypeEx.String_as_OT.cmp_eq in H.
      unfold OrderedTypeEx.String_as_OT.cmp in H. congruence.
    + apply OrderedTypeEx.String_as_OT.cmp_lt in H.
      unfold OrderedTypeEx.String_as_OT.cmp in H. congruence.
Qed.

Lemma string_leb_trans a b c :
  String.leb a b = true -> String.leb b c = true -> String.leb a c = true.
Proof.
  rewrite !string_leb_iff. intros [->|H1] [->|H2]; auto.
  right. eapply OrderedTypeEx.String_as_OT.lt_trans; eassumption.
Qed.

Lemma cell_leb_total a b : cell_leb a b = false -> cell_leb b a = true.
Proof.
  destruct a as [x|], b as [y|]; simpl; try easy.
  intros H. destruct (String.leb_total x y) as [E|E]; congruence.
Qed.

Lemma cell_leb_trans a b c :
  cell_leb a b = true -> cell_leb b c = true -> cell_leb a c = true.
Proof.
  destruct a as [x|], b as [y|], c as [z|]; simpl; try easy.
  apply string_leb_trans.
Qed.

Lemma cell_leb_antisym a b :
  cell_leb a b = true -> cell_leb b a = true -> a = b.
Proof.
  destruct a as [x|], b as [y|]; simpl; try easy.
  intros H1 H2. f_equal. now apply String.leb_antisym.
Qed.

(** ** The Cleaner *)

Lemma filter_map_swap_in {A B} (p : B -> bool) (f : A -> B) (l : list A) :
  filter p (map f l) = map f (filter (fun a => p (f a)) l).
Proof.
  induction l as [|a l IH]; simpl; [reflexivity|].
  destruct (p (f a)); simpl; now rewrite IH.
Qed.

Section Cleaner.

Variable strptime : string -> option datetime.
Variable o : row_order.

Lemma to_datetime_ok s ds :
  to_datetime strptime s = Ok ds ->
  ds = map (fun c => match c with Some x => strptime x | None => None end) s
  /\ forall x, In (Some x) s -> strptime x <> None.
Proof.
  revert ds. induction s as [|c s IH]; simpl; intros ds H.
  - inversion H. split; [reflexivity|]. intros x [].
  - destruct c as [x|].
    + destruct (strptime x) as [d|] eqn:E; [|discriminate].
      destruct (to_datetime strptime s) as [ds'|] eqn:E'; [|discriminate].
      simpl in H. inversion H. subst. destruct (IH ds' eq_refl) as [-> Hall].
      split; [reflexivity|]. intros y [Hy|Hy].
      * inversion Hy. subst. congruence.
      * now apply Hall.
    + destruct (to_datetime strptime s) as [ds'|] eqn:E'; [|discriminate].
      simpl in H. inversion H. subst. destruct (IH ds' eq_refl) as [-> Hall].
      split; [reflexivity|]. intros y [Hy|Hy]; [discriminate|now apply Hall].
Qed.

(** One string off the format and the whole conversion raises. *)
Lemma to_datetime_err s x :
  In (Some x) s -> strptime x = None -> to_datetime strptime s = Err ComputeError.
Proof.
  intros Hin Hx. induction s as [|c s IH]; [destruct Hin|].
  simpl. destruct Hin as [->|Hin].
  - now rewrite Hx.
  - rewrite (IH Hin). destruct c as [y|]; [|reflexivity].
    destruct (strptime y); reflexivity.
Qed.

(** The conversion returns when every string follows the format. *)
Lemma to_datetime_total s :
  (forall x, In (Some x) s -> strptime x <> None) ->
  exists ds, to_datetime strptime s = Ok ds.
Proof.
  induction s as [|c s IH]; intros H; simpl.
  - now eexists.
  - destruct IH as [ds E].
    { intros x Hx. apply H. now right. }
    rewrite E. destruct c as [x|]; simpl.
    + destruct (strptime x) eqn:Ex; [now eexists|].
      exfalso. apply (H x); [now left|exact Ex].
    + now eexists.
Qed.

Lemma valid_from_series_ok raw s :
  valid_from_series strptime raw = Ok s -> s = map (valid_from_of strptime) raw.
Proof.
  unfold valid_from_series. intros H.
  destruct (to_datetime strptime (map blank_header raw)) as [ds|] eqn:E; [|discriminate].
  simpl in H. inversion H. subst. clear H.
  apply to_datetime_ok in E. destruct E as [-> Hall].
  unfold fill_null. rewrite !map_map. apply map_ext_in. intros r Hr.
  unfold valid_from_of. destruct (blank_header r) as [x|] eqn:Eb; [|reflexivity].
  destruct (strptime x) eqn:Ex; [reflexivity|].
  exfalso. apply (Hall x); [|exact Ex]. apply in_map_iff. exists r. now split.
Qed.

Lemma valid_from_series_err raw r x :
  In r raw -> blank_header r = Some x -> strptime x = None ->
  valid_from_series strptime raw = Err ComputeError.
Proof.
  intros Hr Hb Hx. unfold valid_from_series.
  rewrite (to_datetime_err (map blank_header raw) x); [reflexivity| |exact Hx].
  apply in_map_iff. exists r. now split.
Qed.

Lemma valid_from_series_total raw :
  (forall r x, In r raw -> blank_header r = Some x -> strptime x <> None) ->
  valid_from_series strptime raw = Ok (map (valid_from_of strptime) raw).
Proof.
  intros H. destruct (to_datetime_total (map blank_header raw)) as [ds E].
  { intros x Hx. apply in_map_iff in Hx. destruct Hx as (r & Hb & Hr). eauto. }
  assert (valid_from_series strptime raw = Ok (fill_null default_valid_from ds)) as E'
    by (unfold valid_from_series; now rewrite E).
  rewrite E'. f_equal. now apply valid_from_series_ok.
Qed.

(** Whenever the series can be attached, each joined row gets the value
    derived from its own menu-items row. *)
Lemma attach_valid_from raw cats df :
  with_columns (left_join on_store_category raw cats)
    (map (valid_from_of strptime) raw) = Ok df ->
  df = map (fun j => (j, valid_from_of strptime (fst j)))
         (left_join on_store_category raw cats).
Proof.
  pose proof (left_join_same_length on_store_category raw cats) as Hsame.
  pose proof (left_join_length on_store_category raw cats) as Hlen.
  pose proof (in_left_join_fst on_store_category raw cats) as Hfst.
  set (joined := left_join on_store_category raw cats) in *.
  clearbody joined. intros H.
  destruct (Nat.eq_dec (length joined) (length raw)) as [E|E].
  - rewrite with_columns_same_length in H by (now rewrite length_map).
    inversion H. rewrite <- (Hsame E) at 1.
    rewrite map_map. apply combine_map_same.
  - destruct raw as [|r [|r' raw]].
    + simpl in H. destruct joined; [|discriminate H].
      exfalso. apply E. reflexivity.
    + simpl map in H. rewrite with_columns_unit in H by exact Hlen.
      inversion H. apply map_ext_in. intros j Hj.
      destruct (Hfst j Hj) as [<-|[]]. reflexivity.
    + rewrite with_columns_mismatch in H; [discriminate| |].
      * rewrite length_map. congruence.
      * rewrite length_map. simpl. lia.
Qed.

(** The Cleaner's output, when it has one. *)
Lemma menu_items_clean_ok raw cats out :
  menu_items_clean strptime o raw cats = Ok out ->
  out = unique o clean_row_eq_dec
          (cleaned_of strptime (left_join on_store_category raw cats)).
Proof.
  unfold menu_items_clean. intros H.
  destruct (valid_from_series strptime raw) as [s|] eqn:Es; [|discriminate].
  apply valid_from_series_ok in Es. subst s. simpl in H.
  destruct (with_columns _ _) as [df|] eqn:Ed; [|discriminate].
  apply attach_valid_from in Ed. subst df. simpl in H. inversion H.
  unfold cleaned_of. f_equal.
  rewrite filter_map_swap_in, map_map. reflexivity.
Qed.

End Cleaner.

Section CleanerRows.

Variable strptime : string -> option datetime.
Variable o : row_order.

(** A row of the output comes from a joined row that passed the filter. *)
Lemma clean_row_origin raw cats out c :
  menu_items_clean strptime o raw cats = Ok out -> In c out ->
  exists j, In j (left_join on_store_category raw cats)
    /\ mandatory (fst j) = true
    /\ c = project (fst j) (valid_from_of strptime (fst j)).
Proof.
  intros H Hc. apply menu_items_clean_ok in H. subst out.
  apply unique_In in Hc. unfold cleaned_of in Hc.
  apply in_map_iff in Hc. destruct Hc as (j & <- & Hj).
  apply filter_In in Hj. destruct Hj as [Hj Hm]. now exists j.
Qed.

(** A joined row that passes the filter gives a row of the output. *)
Lemma clean_row_kept raw cats out j :
  menu_items_clean strptime o raw cats = Ok out ->
  In j (left_join on_store_category raw cats) -> mandatory (fst j) = true ->
  In (project (fst j) (valid_from_of strptime (fst j))) out.
Proof.
  intros H Hj Hm. apply menu_items_clean_ok in H. subst out.
  apply unique_In. unfold cleaned_of.
  apply in_map_iff. exists j. split; [reflexivity|].
  apply filter_In. now split.
Qed.

(** Every row of the sheet is on the left of some joined row. *)
Lemma raw_row_joined raw cats r :
  In r raw -> exists j, In j (left_join on_store_category raw cats) /\ fst j = r.
Proof.
  intros Hr. unfold left_join.
  destruct (filter (on_store_category r) cats) as [|y ms] eqn:E.
  - exists (r, None). split; [|reflexivity].
    apply in_flat_map. exists r. split; [exact Hr|].
    unfold join_rows. rewrite E. now left.
  - exists (r, Some y). split; [|reflexivity].
    apply in_flat_map. exists r. split; [exact Hr|].
    unfold join_rows. rewrite E. now left.
Qed.

(** When the Cleaner returns, every date string of the sheet parsed. *)
Lemma clean_dates_parse raw cats out r x :
  menu_items_clean strptime o raw cats = Ok out ->
  In r raw -> blank_header r = Some x -> strptime x <> None.
Proof.
  intros H Hr Hb Hx. unfold menu_items_clean in H.
  rewrite (valid_from_series_err strptime raw r x Hr Hb Hx) in H. discriminate.
Qed.

(** The Cleaner returns whenever every date string parses and the join
    result has the raw table's height. *)
Lemma menu_items_clean_returns raw cats :
  (forall r x, In r raw -> blank_header r = Some x -> strptime x <> None) ->
  length (left_join on_store_category raw cats) = length raw ->
  menu_items_clean strptime o raw cats
  = Ok (unique o clean_row_eq_dec
          (cleaned_of strptime (left_join on_store_category raw cats))).
Proof.
  intros Hparse Hlen.
  assert (exists out, menu_items_clean strptime o raw cats = Ok out) as [out H].
  { unfold menu_items_clean.
    rewrite (valid_from_series_total strptime raw Hparse). simpl.
    rewrite with_columns_same_length by (rewrite length_map; congruence).
    simpl. now eexists. }
  rewrite H. f_equal. now apply menu_items_clean_ok in H.
Qed.

End CleanerRows.

(** ** C2: the derived [valid_from] *)

(** C2, as the code has it.  When the Cleaner returns, every output row is
    the projection of a sheet row carrying that row's own [valid_from]: the
    parse of its blank-header string when there is one, the default
    2023-01-01T00:00:00 when the cell is null; and a sheet row with its
    mandatory fields is kept whatever its date cell holds.  A non-null
    string that does not parse is not defaulted: the conversion is strict
    and the Cleaner raises, with no output table.  With every date string
    parsing and a join result as tall as the sheet, the Cleaner returns. *)
Theorem C2_valid_from_parse_or_default :
  forall (strptime : string -> option datetime) (o : row_order)
         (raw : list menu_item_raw) (cats : list category_raw),
    (forall out, menu_items_clean strptime o raw cats = Ok out ->
       (forall c, In c out ->
          exists r, In r raw /\ c = project r (valid_from c) /\
            match blank_header r with
            | Some x => exists d, strptime x = Some d /\ valid_from c = Some d
            | None => valid_from c = Some default_valid_from
            end)
       /\ (forall r, In r raw -> mandatory r = true ->
             exists c, In c out /\ c = project r (valid_from c)))
    /\ (forall r x, In r raw -> blank_header r = Some x -> strptime x = None ->
          menu_items_clean strptime o raw cats = Err ComputeError)
    /\ ((forall r x, In r raw -> blank_header r = Some x -> strptime x <> None) ->
        length (left_join on_store_category raw cats) = length raw ->
        exists out, menu_items_clean strptime o raw cats = Ok out).
Proof.
  intros strptime o raw cats. split; [|split].
  - intros out H. split.
    + intros c Hc.
      destruct (clean_row_origin strptime o raw cats out c H Hc) as (j & Hj & Hm & ->).
      exists (fst j). split; [now apply in_left_join_fst in Hj|].
      split; [reflexivity|]. simpl. unfold valid_from_of.
      destruct (blank_header (fst j)) as [x|] eqn:Eb; [|reflexivity].
      destruct (strptime x) as [d|] eqn:Ex; [now exists d|].
      exfalso. apply in_left_join_fst in Hj.
      now apply (clean_dates_parse strptime o raw cats out (fst j) x H Hj Eb).
    + intros r Hr Hm. destruct (raw_row_joined raw cats r Hr) as (j & Hj & <-).
      eexists. split; [apply (clean_row_kept strptime o raw cats out j H Hj Hm)|].
      reflexivity.
  - intros r x Hr Hb Hx. unfold menu_items_clean.
    now rewrite (valid_from_series_err strptime raw r x Hr Hb Hx).
  - intros Hparse Hlen. eexists.
    apply (menu_items_clean_returns strptime o raw cats Hparse Hlen).
Qed.

(** The sheet of [burger] and [fries]: both rows come out, one with the
    default date, one with its parsed date. *)
Lemma C2_valid_from_witness :
  exists c, In c [project burger (Some default_valid_from);
                  project fries (strptime_padded "New - 03/15/2024")]
    /\ c = project burger (valid_from c).
Proof.
  destruct (C2_valid_from_parse_or_default strptime_padded first_seen
              [burger; fries] [entrees; sides]) as [H _].
  destruct (H _ eq_refl) as [_ Hkept].
  apply (Hkept burger); [now left|reflexivity].
Defined.

(** C2 as stated fails: a row whose date cell is 'TBD' does not get the
    default date; the Cleaner has no output at all. *)
Lemma C2_unparseable_date_raises :
  strptime_padded "TBD" = None
  /\ blank_header undated = Some "TBD"
  /\ menu_items_clean strptime_padded first_seen [burger; undated] [entrees]
     = Err ComputeError
  /\ ~ (exists out,
          menu_items_clean strptime_padded first_seen [burger; undated] [entrees]
          = Ok out).
Proof.
  repeat split. intros [out H]. discriminate H.
Qed.

(** ** C3: the mandatory fields *)

Lemma mandatory_complete r : mandatory r = true -> complete r.
Proof.
  unfold mandatory, complete, is_not_null. intros H.
  destruct (Product_Name r), (Ingredients_on_Product_Page r), (Store r);
    try discriminate H; repeat split; discriminate.
Qed.

(** C3.  In every row of the cleaned table [name], [ingredients] and
    [restaurant] are non-null; the row is the projection of a sheet row that
    has its product name, ingredients text and store name; and every row of
    the five normalized tables is read off such a cleaned row, so a sheet
    row missing one of the three contributes to none of them. *)
Theorem C3_mandatory_fields_non_null :
  forall (strptime : string -> option datetime) (o : row_order)
         (raw : list menu_item_raw) (cats : list category_raw)
         (out : list clean_row),
    menu_items_clean strptime o raw cats = Ok out ->
    (forall c, In c out ->
       name c <> None /\ ingredients c <> None /\ restaurant c <> None)
    /\ (forall c, In c out ->
          exists r, In r raw /\ complete r /\ c = project r (valid_from c))
    /\ (forall n, In n (restaurants o out) ->
          exists c, In c out /\ n = restaurant c)
    /\ (forall m, In m (menu_items o out) ->
          exists c, In c out /\ mi_name m = name c
                    /\ mi_restaurant m = restaurant c /\ mi_category m = category c)
    /\ (forall p, In p (pictures o out) ->
          exists c, In c out /\ product p = name c
                    /\ ch_restaurant p = restaurant c /\ ch_text p = picture c)
    /\ (forall p, In p (ingredients_of o out) ->
          exists c, In c out /\ product p = name c
                    /\ ch_restaurant p = restaurant c /\ ch_text p = ingredients c)
    /\ (forall p, In p (allergens_of o out) ->
          exists c, In c out /\ product p = name c
                    /\ ch_restaurant p = restaurant c /\ ch_text p = allergens c).
Proof.
  intros strptime o raw cats out H.
  assert (forall c, In c out ->
            exists r, In r raw /\ complete r /\ c = project r (valid_from c)) as Horigin.
  { intros c Hc.
    destruct (clean_row_origin strptime o raw cats out c H Hc) as (j & Hj & Hm & ->).
    exists (fst j). split; [now apply in_left_join_fst in Hj|].
    split; [now apply mandatory_complete|reflexivity]. }
  split; [|split; [exact Horigin|]].
  - intros c Hc. destruct (Horigin c Hc) as (r & _ & (Hn & Hi & Hs) & ->).
    simpl. auto.
  - repeat split.
    + intros n Hn. unfold restaurants in Hn.
      apply (Permutation_in n (sort_by_perm cell_leb _)) in Hn.
      apply unique_In, in_map_iff in Hn. destruct Hn as (c & <- & Hc). eauto.
    + intros m Hm. apply unique_In, in_map_iff in Hm.
      destruct Hm as (c & <- & Hc). exists c. simpl. auto.
    + intros p Hp. apply unique_In, in_map_iff in Hp.
      destruct Hp as (c & <- & Hc). exists c. simpl. auto.
    + intros p Hp. apply unique_In, in_map_iff in Hp.
      destruct Hp as (c & <- & Hc). exists c. simpl. auto.
    + intros p Hp. apply unique_In, in_map_iff in Hp.
      destruct Hp as (c & <- & Hc). exists c. simpl. auto.
Qed.

(** On the sheet [burger; fries; nameless] the Cleaner returns, and its rows
    have a name: [nameless] is gone. *)
Lemma C3_mandatory_fields_witness :
  name (project fries (strptime_padded "New - 03/15/2024")) <> None
  /\ ingredients (project fries (strptime_padded "New - 03/15/2024")) <> None
  /\ restaurant (project fries (strptime_padded "New - 03/15/2024")) <> None.
Proof.
  apply (proj1 (C3_mandatory_fields_non_null strptime_padded first_seen
                  [burger; fries; nameless] [entrees; sides] _ eq_refl)).
  right. now left.
Defined.

(** ** C6: no row is made up *)

(** C6.  Every row of the Cleaner's output is [select_rename] of a row of
    the join result that passed the filter, carrying the [valid_from]
    derived from that row's own blank-header cell; and no row occurs twice. *)
Theorem C6_output_rows_come_from_join :
  forall (strptime : string -> option datetime) (o : row_order)
         (raw : list menu_item_raw) (cats : list category_raw)
         (out : list clean_row),
    menu_items_clean strptime o raw cats = Ok out ->
    NoDup out
    /\ forall c, In c out ->
         exists j, In j (left_join on_store_category raw cats)
           /\ mandatory (fst j) = true
           /\ c = select_rename (j, valid_from_of strptime (fst j)).
Proof.
  intros strptime o raw cats out H. split.
  - apply menu_items_clean_ok in H. subst out. apply unique_NoDup.
  - intros c Hc.
    destruct (clean_row_origin strptime o raw cats out c H Hc) as (j & Hj & Hm & ->).
    exists j. auto.
Qed.

Lemma C6_output_rows_witness :
  exists j, In j (left_join on_store_category [burger; fries] [entrees; sides])
    /\ mandatory (fst j) = true
    /\ project burger (Some default_valid_from)
       = select_rename (j, valid_from_of strptime_padded (fst j)).
Proof.
  apply (proj2 (C6_output_rows_come_from_join strptime_padded first_seen
                  [burger; fries] [entrees; sides] _ eq_refl)).
  now left.
Defined.

(** ** C5: rows without a reference match *)

(** C5, as the code has it.  A menu-items row that matches no reference row
    is kept by the left join, with every reference column null; if it has its mandatory fields it reaches the cleaned
    table, and its [category] there is its own 'Fig Category 1' cell, not a
    null. *)
Theorem C5_unmatched_row_kept :
  forall (raw : list menu_item_raw) (cats : list category_raw) (r : menu_item_raw),
    In r raw ->
    (forall y, In y cats -> on_store_category r y = false) ->
    In (r, None) (left_join on_store_category raw cats)
    /\ (forall (A : Type) (col : category_raw -> option A),
          right_col col (r, None) = None)
    /\ forall (strptime : string -> option datetime) (o : row_order) out,
         menu_items_clean strptime o raw cats = Ok out -> mandatory r = true ->
         exists c, In c out /\ c = project r (valid_from c)
                   /\ category c = Fig_Category_1 r.
Proof.
  intros raw cats r Hr Hno.
  pose proof (left_join_unmatched on_store_category raw cats r Hr Hno) as Hj.
  split; [exact Hj|]. split; [reflexivity|].
  intros strptime o out H Hm.
  eexists. split; [apply (clean_row_kept strptime o raw cats out (r, None) H Hj Hm)|].
  split; reflexivity.
Qed.

Lemma C5_unmatched_row_witness :
  In (burger, None) (left_join on_store_category [burger; fries] [sides])
  /\ right_col Restaurant_name (burger, @None category_raw) = None.
Proof.
  destruct (C5_unmatched_row_kept [burger; fries] [sides] burger) as (H1 & H2 & _).
  - now left.
  - intros y [<-|[]]. reflexivity.
  - split; [exact H1|apply H2].
Defined.

(** C5 as stated fails: [burger] matches no reference row, and its category
    in the cleaned table is 'Main', not null. *)
Lemma C5_unmatched_category_not_null :
  (forall y, In y [sides] -> on_store_category burger y = false)
  /\ menu_items_clean strptime_padded first_seen [burger] [sides]
     = Ok [project burger (Some default_valid_from)]
  /\ category (project burger (Some default_valid_from)) = Some "Main"
  /\ category (project burger (Some default_valid_from)) <> None.
Proof.
  repeat split; try discriminate.
  intros y [<-|[]]. reflexivity.
Qed.

(** ** C9: the join leaves no trace in the output *)

(** C9.  The [category] of a cleaned row is the 'Fig Category 1' cell of the
    menu-items row it comes from, and whenever the join result has as many
    rows as the raw menu-items table (the left join keeps the left order),
    the Cleaner and the Cleaner without its join step agree: same output
    table, or the same error. *)
Theorem C9_join_step_is_redundant :
  forall (strptime : string -> option datetime) (o : row_order)
         (raw : list menu_item_raw) (cats : list category_raw),
    length (left_join on_store_category raw cats) = length raw ->
    menu_items_clean strptime o raw cats
    = menu_items_clean_without_join strptime o raw
    /\ forall out, menu_items_clean strptime o raw cats = Ok out ->
         forall c, In c out ->
           exists r, In r raw /\ category c = Fig_Category_1 r
                     /\ c = project r (valid_from c).
Proof.
  intros strptime o raw cats Hlen. split.
  - pose proof (left_join_same_length on_store_category raw cats Hlen) as Hsame.
    unfold menu_items_clean, menu_items_clean_without_join.
    set (joined := left_join on_store_category raw cats) in *.
    clearbody joined. subst raw.
    destruct (valid_from_series strptime (map fst joined)) as [s|] eqn:Es;
      [|reflexivity].
    apply valid_from_series_ok in Es. subst s. simpl.
    rewrite !with_columns_same_length by (now rewrite !length_map).
    simpl. do 2 f_equal.
    rewrite (combine_map_same (valid_from_of strptime) (map fst joined)).
    rewrite (map_map fst (valid_from_of strptime)).
    rewrite (combine_map_same (fun j => valid_from_of strptime (fst j)) joined).
    rewrite !filter_map_swap_in, !map_map. reflexivity.
  - intros out H c Hc.
    destruct (clean_row_origin strptime o raw cats out c H Hc) as (j & Hj & _ & ->).
    exists (fst j). split; [now apply in_left_join_fst in Hj|]. split; reflexivity.
Qed.

Lemma C9_join_step_witness :
  menu_items_clean strptime_padded first_seen [burger; fries; nameless] [entrees; sides]
  = menu_items_clean_without_join strptime_padded first_seen [burger; fries; nameless].
Proof.
  apply (C9_join_step_is_redundant strptime_padded first_seen
           [burger; fries; nameless] [entrees; sides]).
  reflexivity.
Defined.

(** ** C10: the series is attached by position *)

(** C10, as the code has it.  The [valid_from] series has one value per row
    of the raw menu-items table and is attached to the join result by
    position.  Whenever the join result has another row count than a raw
    table of more than one row, the Cleaner raises instead of returning a
    table: the length-mismatch error when every date string parses.  (The
    series of a one-row raw table is repeated down the join result.) *)
Theorem C10_row_count_mismatch_raises :
  forall (strptime : string -> option datetime) (o : row_order)
         (raw : list menu_item_raw) (cats : list category_raw),
    length (left_join on_store_category raw cats) <> length raw ->
    length raw <> 1%nat ->
    (forall s, valid_from_series strptime raw = Ok s -> length s = length raw)
    /\ (exists e, menu_items_clean strptime o raw cats = Err e)
    /\ ((forall r x, In r raw -> blank_header r = Some x -> strptime x <> None) ->
        menu_items_clean strptime o raw cats = Err ShapeError).
Proof.
  intros strptime o raw cats Hne H1.
  assert (forall s, valid_from_series strptime raw = Ok s ->
            with_columns (left_join on_store_category raw cats) s = Err ShapeError) as Hw.
  { intros s Es. apply valid_from_series_ok in Es. subst s.
    apply with_columns_mismatch; rewrite length_map; congruence. }
  split; [|split].
  - intros s Es. apply valid_from_series_ok in Es. subst s. apply length_map.
  - unfold menu_items_clean.
    destruct (valid_from_series strptime raw) as [s|e] eqn:Es.
    + exists ShapeError. simpl. now rewrite (Hw s eq_refl).
    + now exists e.
  - intros Hparse. unfold menu_items_clean.
    rewrite (valid_from_series_total strptime raw Hparse). simpl.
    rewrite Hw; [reflexivity|]. now apply valid_from_series_total.
Qed.

(** Two raw rows, and a reference sheet that lists one key twice. *)
Lemma C10_row_count_mismatch_witness :
  menu_items_clean strptime_padded first_seen [burger; fries] [entrees; entrees]
  = Err ShapeError.
Proof.
  apply (C10_row_count_mismatch_raises strptime_padded first_seen
           [burger; fries] [entrees; entrees]).
  - simpl. lia.
  - simpl. lia.
  - intros r x [<-|[<-|[]]] Hb; inversion Hb. discriminate.
Defined.

(** C10 as stated fails on a raw table of one row: the reference sheet lists
    its key twice, the join yields two rows, and the Cleaner returns. *)
Lemma C10_one_row_series_is_repeated :
  length (left_join on_store_category [burger] [entrees; entrees]) = 2%nat
  /\ length [burger] = 1%nat
  /\ menu_items_clean strptime_padded first_seen [burger] [entrees; entrees]
     = Ok [project burger (Some default_valid_from)].
Proof.
  repeat split.
Qed.

(** ** C7: the restaurants projection *)

Lemma restaurants_spec (o : row_order) (clean : list clean_row) :
  restaurants o clean = sort_by cell_leb (nodup cell_eq_dec (map restaurant clean)).
Proof.
  unfold restaurants, unique.
  apply (sort_by_perm_eq cell_leb cell_leb_total cell_leb_trans cell_leb_antisym).
  apply reorder_perm.
Qed.

Lemma restaurants_NoDup (o : row_order) (clean : list clean_row) :
  NoDup (restaurants o clean).
Proof.
  unfold restaurants.
  apply (Permutation_NoDup (Permutation_sym (sort_by_perm cell_leb _))).
  apply unique_NoDup.
Qed.

Lemma restaurants_In (o : row_order) (clean : list clean_row) (n : cell) :
  In n (restaurants o clean) <-> exists c, In c clean /\ restaurant c = n.
Proof.
  unfold restaurants. split.
  - intros H. apply (Permutation_in n (sort_by_perm cell_leb _)) in H.
    apply unique_In, in_map_iff in H. destruct H as (c & <- & Hc). eauto.
  - intros (c & Hc & <-).
    apply (Permutation_in _ (Permutation_sym (sort_by_perm cell_leb _))).
    apply unique_In, in_map_iff. eauto.
Qed.

(** C7.  The restaurants projection holds exactly the restaurant names of
    the cleaned table, each once, in ascending order; and it does not depend
    on the order [unique()] returns its rows in: two runs on one cleaned
    table give the same list. *)
Theorem C7_restaurants_sorted_distinct :
  forall (o1 o2 : row_order) (clean : list clean_row),
    restaurants o1 clean = restaurants o2 clean
    /\ StronglySorted (fun a b => cell_leb a b = true) (restaurants o1 clean)
    /\ NoDup (restaurants o1 clean)
    /\ (forall n, In n (restaurants o1 clean) <->
                  exists c, In c clean /\ restaurant c = n).
Proof.
  intros o1 o2 clean. split; [|split; [|split]].
  - now rewrite !restaurants_spec.
  - apply (sort_by_sorted cell_leb cell_leb_total cell_leb_trans).
  - apply restaurants_NoDup.
  - intros n. apply restaurants_In.
Qed.

(** ** The Loader *)

Lemma not_null_rejects {A} (col : A -> option Z) (frame : list A) (r : A) :
  In r frame -> col r = None -> not_null col frame = false.
Proof.
  intros Hr Hc. unfold not_null.
  destruct (forallb _ frame) eqn:E; [|reflexivity].
  rewrite forallb_forall in E. specialize (E r Hr). now rewrite Hc in E.
Qed.

Lemma names_of_number_from (i : Z) (l : list cell) :
  map r_name (number_from mk_Restaurant i l) = l.
Proof.
  revert i. induction l as [|x l IH]; intros i; simpl; [reflexivity|].
  now rewrite IH.
Qed.

(** A child row, after the restaurant name is replaced, that matches no row
    of [menu_items_pk]. *)
Lemma child_fk_unmatched (cast_int64 : string -> option Z) children m pk c :
  In c children ->
  (forall mi, In mi pk ->
     on_product_restaurant (replace cast_int64 m (ch_restaurant c), c) mi = false) ->
  In {| item_id := None; fk_text := ch_text c |}
     (child_fk_of cast_int64 children m pk).
Proof.
  intros Hc Hno. unfold child_fk_of. apply in_map_iff.
  exists ((replace cast_int64 m (ch_restaurant c), c), None). split; [reflexivity|].
  apply left_join_unmatched; [|exact Hno].
  apply in_map_iff. now exists c.
Qed.

(** A child frame that is written went in whole, and each of its rows
    names a menu item. *)
Lemma write_child_ok pk t frame t' :
  write_child pk t frame = Ok t' ->
  rows t' = rows t ++ number_from mk_Child (next_id t) frame
  /\ Forall (fun r => exists mi, In mi pk /\ item_id r = Some (m_id mi)) frame.
Proof.
  unfold write_child. intros H.
  destruct (not_null item_id frame) eqn:Hn; [|discriminate].
  destruct (references item_id (map m_id pk) frame) eqn:Hr; [|discriminate].
  simpl in H. inversion H. split; [reflexivity|].
  apply Forall_forall. intros r Hin.
  unfold not_null in Hn. rewrite forallb_forall in Hn. specialize (Hn r Hin).
  unfold references in Hr. rewrite forallb_forall in Hr. specialize (Hr r Hin).
  destruct (item_id r) as [i|]; [|discriminate].
  apply existsb_exists in Hr. destruct Hr as (k & Hk & E).
  apply Z.eqb_eq in E. subst k.
  apply in_map_iff in Hk. destruct Hk as (mi & <- & Hmi). now exists mi.
Qed.

(** The chain raises on an empty read-back and is [child_fk_of] on any
    other. *)
Lemma child_fk_chain_empty (cast_int64 : string -> option Z) children m :
  child_fk_chain cast_int64 children m [] = Err ComputeError.
Proof. reflexivity. Qed.

Lemma child_fk_chain_returns (cast_int64 : string -> option Z) children m pk :
  pk <> [] ->
  child_fk_chain cast_int64 children m pk
  = Ok (child_fk_of cast_int64 children m pk).
Proof. destruct pk; [intros H; now destruct H|reflexivity]. Qed.

Lemma child_fk_chain_ok (cast_int64 : string -> option Z) children m pk frame :
  child_fk_chain cast_int64 children m pk = Ok frame ->
  pk <> [] /\ frame = child_fk_of cast_int64 children m pk.
Proof.
  destruct pk; [discriminate|]. intros H. inversion H. split; [discriminate|reflexivity].
Qed.

(** ** C4: item ids come from the menu-items table *)

(** C4.  Every [item_id] of [ingredients_fk], [allergens_fk] and
    [pictures_fk] is null or the [id] of a row of [menu_items_pk], the
    menu-items table as read back. *)
Theorem C4_item_id_null_or_menu_item :
  forall (cast_int64 : string -> option Z) (children : list child) (m : id_map)
         (menu_items_pk : list MenuItem),
    let known (r : child_fk) :=
      item_id r = None
      \/ exists mi, In mi menu_items_pk /\ item_id r = Some (m_id mi) in
    Forall known (ingredients_fk cast_int64 children m menu_items_pk)
    /\ Forall known (allergens_fk cast_int64 children m menu_items_pk)
    /\ Forall known (pictures_fk cast_int64 children m menu_items_pk).
Proof.
  intros cast_int64 children m pk known.
  assert (Forall known (child_fk_of cast_int64 children m pk)) as H.
  { apply Forall_forall. intros r Hr. unfold child_fk_of in Hr.
    apply in_map_iff in Hr. destruct Hr as (j & <- & Hj).
    apply in_left_join_snd in Hj. unfold known, right_col. simpl.
    destruct (snd j) as [mi|]; [|now left].
    right. exists mi. split; [apply Hj|reflexivity]. }
  repeat split; exact H.
Qed.

(** ** C1: names that resolve to nothing *)

(** C1, as the code has it.  A menu item whose restaurant name is no key
    of the name-to-id mapping (and is not itself an integer literal) gets a
    null [restaurant_id] in [menu_items_fk]; against a menu-items table read
    back with rows, a child row whose (product, restaurant_id) pair matches
    none of them gets a null [item_id].  Such a frame is not loaded: the
    foreign-key columns are declared [nullable=False], the write is
    rejected and the job stops there.  Against a menu-items table read back
    without rows no child frame is built at all: the join raises. *)
Theorem C1_unresolved_key_is_null_and_rejected :
  forall (cast_int64 : string -> option Z) (m : id_map),
    (forall (items : list menu_item) (db : database) (x : menu_item) (s : string),
       In x items -> mi_restaurant x = Some s ->
       dict_get m (Some s) = None -> cast_int64 s = None ->
       In {| restaurant_id := None; fk_name := mi_name x;
             fk_category := mi_category x |} (menu_items_fk cast_int64 items m)
       /\ write_menu_items db (menu_items_fk cast_int64 items m)
          = Err IntegrityError)
    /\ (forall (children : list child) (menu_items_pk : list MenuItem)
               (t : table Child) (c : child),
          menu_items_pk <> [] ->
          In c children ->
          (forall mi, In mi menu_items_pk ->
             on_product_restaurant
               (replace cast_int64 m (ch_restaurant c), c) mi = false) ->
          exists frame,
            child_fk_chain cast_int64 children m menu_items_pk = Ok frame
            /\ In {| item_id := None; fk_text := ch_text c |} frame
            /\ write_child menu_items_pk t frame = Err IntegrityError)
    /\ (forall (children : list child),
          child_fk_chain cast_int64 children m [] = Err ComputeError).
Proof.
  intros cast_int64 m. split; [|split].
  - intros items db x s Hx Hs Hm Hcast.
    assert (In {| restaurant_id := None; fk_name := mi_name x;
                  fk_category := mi_category x |}
               (menu_items_fk cast_int64 items m)) as Hin.
    { unfold menu_items_fk.
      apply (Permutation_in _ (Permutation_sym (sort_by_perm _ _))).
      apply in_map_iff. exists x. split; [|exact Hx].
      unfold replace. now rewrite Hs, Hm, Hcast. }
    split; [exact Hin|]. unfold write_menu_items.
    now rewrite (not_null_rejects restaurant_id _ _ Hin eq_refl).
  - intros children pk t c Hpk Hc Hno.
    pose proof (child_fk_unmatched cast_int64 children m pk c Hc Hno) as Hin.
    exists (child_fk_of cast_int64 children m pk).
    split; [now apply child_fk_chain_returns|].
    split; [exact Hin|]. unfold write_child.
    now rewrite (not_null_rejects item_id _ _ Hin eq_refl).
  - intros children. reflexivity.
Qed.

(** The diner is spelt 'joe's diner' in the restaurants table: the menu
    item's [restaurant_id] is null and the write is rejected. *)
Lemma C1_unresolved_key_witness :
  In {| restaurant_id := None; fk_name := Some "Burger";
        fk_category := Some "Main" |}
     (menu_items_fk decimal_int64 [burger_item] lowercase_map)
  /\ write_menu_items lowercase_db
       (menu_items_fk decimal_int64 [burger_item] lowercase_map)
     = Err IntegrityError.
Proof.
  apply (proj1 (C1_unresolved_key_is_null_and_rejected decimal_int64 lowercase_map)
           [burger_item] lowercase_db burger_item "Joe's Diner").
  - now left.
  - reflexivity.
  - reflexivity.
  - reflexivity.
Defined.

(** C1 as stated fails: the menu item whose restaurant is no key of the
    mapping is not loaded with a null [restaurant_id], the write raises; and
    so does the write of a child row that matches no row of the menu-items
    table read back. *)
Lemma C1_null_foreign_key_aborts :
  dict_get lowercase_map (Some "Joe's Diner") = None
  /\ menu_items_fk decimal_int64 [burger_item] lowercase_map
     = [{| restaurant_id := None; fk_name := Some "Burger";
           fk_category := Some "Main" |}]
  /\ write_menu_items lowercase_db
       (menu_items_fk decimal_int64 [burger_item] lowercase_map)
     = Err IntegrityError
  /\ child_fk_chain decimal_int64 [burger_ingredients] lowercase_map [fries_row]
     = Ok [{| item_id := None; fk_text := Some "beef, bun" |}]
  /\ write_child [fries_row] empty_table
       [{| item_id := None; fk_text := Some "beef, bun" |}]
     = Err IntegrityError.
Proof.
  repeat split.
Qed.

(** ** C8: restaurant names *)

Section Loader.

Variable cast_int64 : string -> option Z.
Variable o : row_order.

(** A run of the loader that completes, step by step: the menu-items write
    was accepted, the table read back had rows, and each child frame was
    written to its table. *)
Lemma load_inv db clean db' :
  load cast_int64 o db clean = Ok db' ->
  let db1 := write_restaurants db (restaurants o clean) in
  let m := restaurants_id_map (rows (restaurants_tbl db1)) in
  let frame := menu_items_fk cast_int64 (menu_items o clean) m in
  let pk := rows (append mk_MenuItem (menu_items_tbl db) frame) in
  write_menu_items db1 frame
  = Ok {| restaurants_tbl := restaurants_tbl db1;
          menu_items_tbl := append mk_MenuItem (menu_items_tbl db) frame;
          ingredients_tbl := ingredients_tbl db;
          allergens_tbl := allergens_tbl db;
          pictures_tbl := pictures_tbl db |}
  /\ pk <> []
  /\ restaurants_tbl db' = restaurants_tbl db1
  /\ menu_items_tbl db' = append mk_MenuItem (menu_items_tbl db) frame
  /\ write_child pk (ingredients_tbl db)
       (child_fk_of cast_int64 (ingredients_of o clean) m pk)
     = Ok (ingredients_tbl db')
  /\ write_child pk (allergens_tbl db)
       (child_fk_of cast_int64 (allergens_of o clean) m pk)
     = Ok (allergens_tbl db')
  /\ write_child pk (pictures_tbl db)
       (child_fk_of cast_int64 (pictures o clean) m pk)
     = Ok (pictures_tbl db').
Proof.
  unfold load. intros H.
  destruct (write_menu_items _ _) as [db2|] eqn:E2; [|discriminate].
  assert (db2 = {| restaurants_tbl :=
                     restaurants_tbl (write_restaurants db (restaurants o clean));
                   menu_items_tbl :=
                     append mk_MenuItem (menu_items_tbl db)
                       (menu_items_fk cast_int64 (menu_items o clean)
                          (restaurants_id_map
                             (rows (restaurants_tbl
                                      (write_restaurants db (restaurants o clean))))));
                   ingredients_tbl := ingredients_tbl db;
                   allergens_tbl := allergens_tbl db;
                   pictures_tbl := pictures_tbl db |}) as Hdb2.
  { unfold write_menu_items in E2.
    destruct (_ && _) in E2; [|discriminate]. now inversion E2. }
  subst db2.
  cbn [bind menu_items_tbl ingredients_tbl allergens_tbl pictures_tbl
       restaurants_tbl] in H.
  remember (rows (append mk_MenuItem (menu_items_tbl db)
                    (menu_items_fk cast_int64 (menu_items o clean)
                       (restaurants_id_map
                          (rows (restaurants_tbl
                                   (write_restaurants db (restaurants o clean)))))))) as pk
    eqn:Epk.
  destruct pk as [|mi0 pk0]; [discriminate H|].
  cbn [child_fk_chain bind] in H.
  destruct (write_child _ (ingredients_tbl db) _) as [ti|] eqn:Ei; [|discriminate].
  cbn [bind] in H.
  destruct (write_child _ (allergens_tbl db) _) as [ta|] eqn:Ea; [|discriminate].
  cbn [bind] in H.
  destruct (write_child _ (pictures_tbl db) _) as [tp|] eqn:Ep; [|discriminate].
  cbn [bind] in H. inversion H. subst db'. clear H.
  cbn [menu_items_tbl ingredients_tbl allergens_tbl pictures_tbl restaurants_tbl].
  split; [reflexivity|]. split; [discriminate|].
  split; [reflexivity|]. split; [reflexivity|].
  split; [reflexivity|]. split; reflexivity.
Qed.

(** What a run that completes did to the restaurants table. *)
Lemma load_restaurants db clean db' :
  load cast_int64 o db clean = Ok db' ->
  restaurants_tbl db'
  = append mk_Restaurant (restaurants_tbl db) (restaurants o clean).
Proof.
  intros H. apply load_inv in H. destruct H as (_ & _ & H & _). exact H.
Qed.

End Loader.

(** C8, as the code has it.  The column [name] of the restaurants table is
    a plain string column, neither unique nor not-null by declaration.  What
    one run of the job inserts are pairwise distinct, non-null names, after
    the rows the table already held; so a run on an empty restaurants table
    leaves no two rows with one name and no row without a name. *)
Theorem C8_names_inserted_distinct_non_null :
  forall (strptime : string -> option datetime) (cast_int64 : string -> option Z)
         (o : row_order) (db db' : database)
         (raw : list menu_item_raw) (cats : list category_raw),
    main strptime cast_int64 o db raw cats = Ok db' ->
    (exists new,
       rows (restaurants_tbl db') = rows (restaurants_tbl db) ++ new
       /\ NoDup (map r_name new)
       /\ Forall (fun r => r_name r <> None) new)
    /\ (rows (restaurants_tbl db) = [] ->
        NoDup (map r_name (rows (restaurants_tbl db')))
        /\ Forall (fun r => r_name r <> None) (rows (restaurants_tbl db'))).
Proof.
  intros strptime cast_int64 o db db' raw cats H.
  unfold main in H.
  destruct (menu_items_clean strptime o raw cats) as [clean|] eqn:Ec; [|discriminate].
  simpl in H. apply load_restaurants in H.
  pose proof (restaurants_NoDup o clean) as Hnd.
  pose proof (restaurants_In o clean) as Hin.
  set (new := number_from mk_Restaurant (next_id (restaurants_tbl db))
                (restaurants o clean)).
  assert (rows (restaurants_tbl db') = rows (restaurants_tbl db) ++ new) as Hrows
    by (rewrite H; reflexivity).
  assert (map r_name new = restaurants o clean) as Hnames
    by apply names_of_number_from.
  assert (Forall (fun r => r_name r <> None) new) as Hnn.
  { apply Forall_forall. intros r Hr.
    assert (In (r_name r) (restaurants o clean)) as Hn
      by (rewrite <- Hnames; now apply in_map).
    apply Hin in Hn. destruct Hn as (c & Hc & Hn). rewrite <- Hn.
    destruct (clean_row_origin strptime o raw cats clean c Ec Hc) as (j & _ & Hm & ->).
    apply mandatory_complete in Hm. apply Hm. }
  split.
  - exists new. rewrite Hnames. auto.
  - intros Hempty. rewrite Hrows, Hempty. simpl. rewrite Hnames. auto.
Qed.

(** One run on the empty database. *)
Lemma C8_names_inserted_witness :
  exists db',
    main strptime_padded decimal_int64 first_seen empty_database
      [burger; fries; nameless] [entrees; sides] = Ok db'
    /\ NoDup (map r_name (rows (restaurants_tbl db'))).
Proof.
  eexists. split; [reflexivity|].
  refine (proj1 (proj2 (C8_names_inserted_distinct_non_null strptime_padded
            decimal_int64 first_seen empty_database _
            [burger; fries; nameless] [entrees; sides] eq_refl) eq_refl)).
Defined.

(** C8 as stated fails: the job run twice on the same sheets completes both
    times and leaves two restaurant rows with the name 'Joe's Diner'. *)
Lemma C8_second_run_duplicates_names :
  exists db1 db2,
    main strptime_padded decimal_int64 first_seen empty_database
      [burger; fries] [entrees; sides] = Ok db1
    /\ main strptime_padded decimal_int64 first_seen db1
         [burger; fries] [entrees; sides] = Ok db2
    /\ map r_name (rows (restaurants_tbl db2))
       = [Some "Joe's Diner"; Some "Joe's Diner"]
    /\ ~ NoDup (map r_name (rows (restaurants_tbl db2))).
Proof.
  eexists. eexists. split; [reflexivity|]. split; [reflexivity|].
  split; [reflexivity|].
  intros H. simpl in H. inversion H as [|x l Hx Hl]. apply Hx. now left.
Qed.

(** * Further properties of the job *)

(** ** The cleaned table, row by row *)

(** The cleaned table holds exactly the projections of the sheet rows that
    have their three mandatory cells, each with its own [valid_from]: a row
    of the sheet is kept if and only if none of the three is missing. *)
Theorem cleaned_rows_characterized :
  forall (strptime : string -> option datetime) (o : row_order)
         (raw : list menu_item_raw) (cats : list category_raw)
         (out : list clean_row),
    menu_items_clean strptime o raw cats = Ok out ->
    forall c, In c out <->
      exists r, In r raw /\ mandatory r = true
                /\ c = project r (valid_from_of strptime r).
Proof.
  intros strptime o raw cats out H c. split.
  - intros Hc.
    destruct (clean_row_origin strptime o raw cats out c H Hc) as (j & Hj & Hm & ->).
    exists (fst j). split; [now apply in_left_join_fst in Hj|]. now split.
  - intros (r & Hr & Hm & ->).
    destruct (raw_row_joined raw cats r Hr) as (j & Hj & <-).
    now apply (clean_row_kept strptime o raw cats out j H Hj Hm).
Qed.

Lemma cleaned_rows_characterized_witness :
  In (project fries (strptime_padded "New - 03/15/2024"))
     [project burger (Some default_valid_from);
      project fries (strptime_padded "New - 03/15/2024")]
  <-> exists r, In r [burger; fries; nameless] /\ mandatory r = true
        /\ project fries (strptime_padded "New - 03/15/2024")
           = project r (valid_from_of strptime_padded r).
Proof.
  apply (cleaned_rows_characterized strptime_padded first_seen
           [burger; fries; nameless] [entrees; sides] _ eq_refl).
Defined.

(** No row of the cleaned table has a null [valid_from]. *)
Theorem cleaned_valid_from_not_null :
  forall (strptime : string -> option datetime) (o : row_order)
         (raw : list menu_item_raw) (cats : list category_raw)
         (out : list clean_row),
    menu_items_clean strptime o raw cats = Ok out ->
    Forall (fun c => valid_from c <> None) out.
Proof.
  intros strptime o raw cats out H. apply Forall_forall. intros c Hc.
  destruct (clean_row_origin strptime o raw cats out c H Hc) as (j & Hj & _ & ->).
  simpl. unfold valid_from_of.
  destruct (blank_header (fst j)) as [x|] eqn:Eb; [|discriminate].
  apply in_left_join_fst in Hj.
  apply (clean_dates_parse strptime o raw cats out (fst j) x H Hj Eb).
Qed.

Lemma cleaned_valid_from_not_null_witness :
  Forall (fun c => valid_from c <> None)
    [project burger (Some default_valid_from);
     project fries (strptime_padded "New - 03/15/2024")].
Proof.
  apply (cleaned_valid_from_not_null strptime_padded first_seen
           [burger; fries; nameless] [entrees; sides] _ eq_refl).
Defined.

(** Two sheet rows that agree on the six selected columns and on the date
    cell, whatever their other columns hold, give one row of the cleaned
    table, not two. *)
Theorem rows_equal_on_selected_columns_collapse :
  forall (strptime : string -> option datetime) (o : row_order)
         (raw : list menu_item_raw) (cats : list category_raw)
         (out : list clean_row) (r1 r2 : menu_item_raw),
    menu_items_clean strptime o raw cats = Ok out ->
    In r1 raw -> In r2 raw -> mandatory r1 = true ->
    Product_Name r1 = Product_Name r2 ->
    Ingredients_on_Product_Page r1 = Ingredients_on_Product_Page r2 ->
    Allergens_and_Warnings r1 = Allergens_and_Warnings r2 ->
    URL_of_primary_product_picture r1 = URL_of_primary_product_picture r2 ->
    Store r1 = Store r2 ->
    Fig_Category_1 r1 = Fig_Category_1 r2 ->
    blank_header r1 = blank_header r2 ->
    project r1 (valid_from_of strptime r1) = project r2 (valid_from_of strptime r2)
    /\ count_occ clean_row_eq_dec out (project r1 (valid_from_of strptime r1)) = 1%nat.
Proof.
  intros strptime o raw cats out r1 r2 H H1 H2 Hm En Ei Ea Eu Es Ef Eb. split.
  - unfold project, valid_from_of. now rewrite En, Ei, Ea, Eu, Es, Ef, Eb.
  - apply NoDup_count_occ'.
    + apply menu_items_clean_ok in H. subst out. apply unique_NoDup.
    + destruct (raw_row_joined raw cats r1 H1) as (j & Hj & <-).
      now apply (clean_row_kept strptime o raw cats out j H Hj Hm).
Qed.

(** [burger] and [burger_promo] differ in a column the script never reads. *)
Lemma rows_equal_on_selected_columns_witness :
  project burger (valid_from_of strptime_padded burger)
  = project burger_promo (valid_from_of strptime_padded burger_promo)
  /\ count_occ clean_row_eq_dec
       [project burger (Some default_valid_from);
        project fries (strptime_padded "New - 03/15/2024")]
       (project burger (valid_from_of strptime_padded burger)) = 1%nat.
Proof.
  apply (rows_equal_on_selected_columns_collapse strptime_padded first_seen
           [burger; burger_promo; fries] [entrees; sides] _ burger burger_promo
           eq_refl); try reflexivity.
  - now left.
  - right. now left.
Defined.

(** ** The Normalizer's frames *)

Lemma sort_nodup_same_elements (l1 l2 : list cell) :
  (forall n, In n l1 <-> In n l2) ->
  sort_by cell_leb (nodup cell_eq_dec l1) = sort_by cell_leb (nodup cell_eq_dec l2).
Proof.
  intros H.
  apply (sort_by_perm_eq cell_leb cell_leb_total cell_leb_trans cell_leb_antisym).
  apply NoDup_Permutation; try apply NoDup_nodup.
  intros n. rewrite !nodup_In. apply H.
Qed.

(** From the sheet to the restaurants frame: the frame is the ascending
    list of the distinct 'Store' cells of the sheet rows that have their
    three mandatory cells; the reference sheet has no say in it. *)
Theorem restaurants_are_stores_of_complete_rows :
  forall (strptime : string -> option datetime) (o : row_order)
         (raw : list menu_item_raw) (cats : list category_raw)
         (out : list clean_row),
    menu_items_clean strptime o raw cats = Ok out ->
    restaurants o out
    = sort_by cell_leb (nodup cell_eq_dec (map Store (filter mandatory raw))).
Proof.
  intros strptime o raw cats out H. rewrite restaurants_spec.
  apply sort_nodup_same_elements. intros n. rewrite !in_map_iff. split.
  - intros (c & <- & Hc).
    destruct (clean_row_origin strptime o raw cats out c H Hc) as (j & Hj & Hm & ->).
    exists (fst j). split; [reflexivity|].
    apply filter_In. split; [now apply in_left_join_fst in Hj|exact Hm].
  - intros (r & <- & Hr). apply filter_In in Hr. destruct Hr as [Hr Hm].
    destruct (raw_row_joined raw cats r Hr) as (j & Hj & <-).
    exists (project (fst j) (valid_from_of strptime (fst j))).
    split; [reflexivity|].
    now apply (clean_row_kept strptime o raw cats out j H Hj Hm).
Qed.

Lemma restaurants_are_stores_witness :
  restaurants first_seen
    [project burger (Some default_valid_from);
     project fries (strptime_padded "New - 03/15/2024")]
  = sort_by cell_leb
      (nodup cell_eq_dec (map Store (filter mandatory [burger; fries; nameless]))).
Proof.
  apply (restaurants_are_stores_of_complete_rows strptime_padded first_seen
           [burger; fries; nameless] [entrees; sides] _ eq_refl).
Defined.

(** Each of the four other frames holds every distinct triple of the
    cleaned table once, and nothing else. *)
Theorem projections_distinct_and_exact :
  forall (o : row_order) (clean : list clean_row),
    let triples_of (f : clean_row -> cell) (frame : list child) :=
      NoDup frame
      /\ forall p, In p frame <->
           exists c, In c clean
             /\ p = {| product := name c; ch_restaurant := restaurant c;
                       ch_text := f c |} in
    (NoDup (menu_items o clean)
     /\ forall m, In m (menu_items o clean) <->
          exists c, In c clean
            /\ m = {| mi_name := name c; mi_restaurant := restaurant c;
                      mi_category := category c |})
    /\ triples_of picture (pictures o clean)
    /\ triples_of ingredients (ingredients_of o clean)
    /\ triples_of allergens (allergens_of o clean).
Proof.
  intros o clean triples_of.
  assert (forall f, triples_of f
            (unique o child_eq_dec
               (map (fun c => {| product := name c; ch_restaurant := restaurant c;
                                 ch_text := f c |}) clean))) as Hchild.
  { intros f. split; [apply unique_NoDup|].
    intros p. rewrite unique_In, in_map_iff. split.
    - intros (c & <- & Hc). eauto.
    - intros (c & Hc & ->). eauto. }
  split; [|repeat split; apply Hchild].
  split; [apply unique_NoDup|].
  intros m. unfold menu_items. rewrite unique_In, in_map_iff. split.
  - intros (c & <- & Hc). eauto.
  - intros (c & Hc & ->). eauto.
Qed.

(** ** Foreign-key resolution *)

Lemma int_leb_total (a b : option Z) :
  opt_leb Z.leb a b = false -> opt_leb Z.leb b a = true.
Proof. destruct a, b; simpl; try easy. lia. Qed.

Lemma int_leb_trans (a b c : option Z) :
  opt_leb Z.leb a b = true -> opt_leb Z.leb b c = true -> opt_leb Z.leb a c = true.
Proof. destruct a, b, c; simpl; try easy. lia. Qed.

Lemma by_restaurant_id_name_total a b :
  by_restaurant_id_name a b = false -> by_restaurant_id_name b a = true.
Proof.
  unfold by_restaurant_id_name.
  destruct (opt_leb Z.leb (restaurant_id a) (restaurant_id b)) eqn:E1.
  - destruct (opt_leb Z.leb (restaurant_id b) (restaurant_id a)) eqn:E2; [|discriminate].
    apply cell_leb_total.
  - intros _. now rewrite (int_leb_total _ _ E1).
Qed.

Lemma by_restaurant_id_name_trans a b c :
  by_restaurant_id_name a b = true -> by_restaurant_id_name b c = true ->
  by_restaurant_id_name a c = true.
Proof.
  unfold by_restaurant_id_name.
  destruct (opt_leb Z.leb (restaurant_id a) (restaurant_id b)) eqn:Eab; [|discriminate].
  destruct (opt_leb Z.leb (restaurant_id b) (restaurant_id c)) eqn:Ebc; [|discriminate].
  rewrite (int_leb_trans _ _ _ Eab Ebc).
  destruct (opt_leb Z.leb (restaurant_id c) (restaurant_id a)) eqn:Eca; [|reflexivity].
  rewrite (int_leb_trans _ _ _ Ebc Eca), (int_leb_trans _ _ _ Eca Eab).
  apply cell_leb_trans.
Qed.

(** [menu_items_fk] has one row per row of [menu_items], in ascending order
    of [restaurant_id], rows of one restaurant in ascending order of name,
    null ids first. *)
Theorem menu_items_fk_sorted :
  forall (cast_int64 : string -> option Z) (items : list menu_item) (m : id_map),
    length (menu_items_fk cast_int64 items m) = length items
    /\ Permutation (map fk_name (menu_items_fk cast_int64 items m))
                   (map mi_name items)
    /\ StronglySorted (fun a b => by_restaurant_id_name a b = true)
         (menu_items_fk cast_int64 items m)
    /\ StronglySorted (fun a b => opt_leb Z.leb a b = true)
         (map restaurant_id (menu_items_fk cast_int64 items m)).
Proof.
  intros cast_int64 items m.
  assert (StronglySorted (fun a b => by_restaurant_id_name a b = true)
            (menu_items_fk cast_int64 items m)) as Hs
    by apply (sort_by_sorted _ by_restaurant_id_name_total by_restaurant_id_name_trans).
  unfold menu_items_fk in *.
  set (resolved := map _ items) in *.
  pose proof (sort_by_perm by_restaurant_id_name resolved) as P.
  repeat split.
  - rewrite (Permutation_length P). apply length_map.
  - rewrite (Permutation_map fk_name P). unfold resolved. now rewrite map_map.
  - exact Hs.
  - clear P. induction Hs as [|a l Hl IH Ha]; simpl; constructor; [exact IH|].
    rewrite Forall_map. eapply Forall_impl; [|exact Ha].
    intros b Hab. unfold by_restaurant_id_name in Hab.
    now destruct (opt_leb Z.leb (restaurant_id a) (restaurant_id b)).
Qed.

Lemma left_join_covers {L R} (matches : L -> R -> bool) (l : list L)
    (r : list R) (x : L) :
  In x l -> exists j, In j (left_join matches l r) /\ fst j = x.
Proof.
  intros Hx.
  assert (exists j, In j (join_rows matches r x)) as [j Hj].
  { pose proof (block_length matches x r) as Hb.
    destruct (join_rows matches r x) as [|j b]; [simpl in Hb; lia|].
    exists j. now left. }
  exists j. split; [|now apply (block_fst matches x r)].
  unfold left_join. apply in_flat_map. now exists x.
Qed.

(** The join against the menu-items table loses no child row and makes none
    up: the texts of a child frame are those of its source frame, and the
    frame is at least as long. *)
Theorem child_fk_keeps_every_row :
  forall (cast_int64 : string -> option Z) (children : list child) (m : id_map)
         (menu_items_pk : list MenuItem),
    incl (map ch_text children)
         (map fk_text (child_fk_of cast_int64 children m menu_items_pk))
    /\ incl (map fk_text (child_fk_of cast_int64 children m menu_items_pk))
            (map ch_text children)
    /\ (length children
        <= length (child_fk_of cast_int64 children m menu_items_pk))%nat.
Proof.
  intros cast_int64 children m pk. unfold child_fk_of.
  set (resolved := map (fun c => (replace cast_int64 m (ch_restaurant c), c)) children).
  repeat split.
  - intros t Ht. apply in_map_iff in Ht. destruct Ht as (c & <- & Hc).
    destruct (left_join_covers on_product_restaurant resolved pk
                (replace cast_int64 m (ch_restaurant c), c)) as (j & Hj & Ej).
    { apply in_map_iff. now exists c. }
    apply in_map_iff. eexists. split; [|apply in_map_iff; exists j; eauto].
    simpl. now rewrite Ej.
  - intros t Ht. rewrite map_map in Ht. apply in_map_iff in Ht.
    destruct Ht as (j & <- & Hj). simpl.
    apply in_left_join_fst in Hj. apply in_map_iff in Hj.
    destruct Hj as (c & <- & Hc). simpl. now apply in_map.
  - rewrite length_map.
    pose proof (left_join_length on_product_restaurant resolved pk) as H.
    unfold resolved in H at 1. now rewrite length_map in H.
Qed.

(** ** Generated keys and the read-back *)

Section NumberFrom.

Context {A B : Type} (mk : Z -> A -> B).

Lemma number_from_In i l b :
  In b (number_from mk i l) ->
  exists k x, b = mk k x /\ In x l /\ i <= k < i + Z.of_nat (length l).
Proof.
  revert i. induction l as [|y l IH]; intros i H; [destruct H|].
  destruct H as [<-|H].
  - exists i, y. simpl length. repeat split; [now left|lia|lia].
  - destruct (IH _ H) as (k & x & -> & Hx & Hk).
    exists k, x. simpl length. repeat split; [now right|lia|lia].
Qed.

Lemma number_from_covers i l x :
  In x l ->
  exists k, In (mk k x) (number_from mk i l) /\ i <= k < i + Z.of_nat (length l).
Proof.
  revert i. induction l as [|y l IH]; intros i H; [destruct H|].
  destruct H as [->|H].
  - exists i. simpl length. split; [now left|lia].
  - destruct (IH (i + 1) H) as (k & Hk & Hr).
    exists k. simpl length. split; [now right|lia].
Qed.

Lemma length_number_from i l : length (number_from mk i l) = length l.
Proof. revert i. induction l as [|y l IH]; intros i; simpl; [reflexivity|now rewrite IH]. Qed.

Variable id : B -> Z.
Hypothesis id_mk : forall k x, id (mk k x) = k.

Lemma number_from_ids_NoDup i l : NoDup (map id (number_from mk i l)).
Proof.
  revert i. induction l as [|y l IH]; intros i; simpl; constructor; [|apply IH].
  rewrite id_mk. intros H. apply in_map_iff in H. destruct H as (b & Hb & Hin).
  apply number_from_In in Hin. destruct Hin as (k & x & -> & _ & Hk).
  rewrite id_mk in Hb. lia.
Qed.

(** Appending keeps the keys of a table distinct. *)
Lemma append_keyed t l : keyed id t -> keyed id (append mk t l).
Proof.
  intros [Hnd Hlt]. unfold keyed, append. simpl. split.
  - rewrite map_app. apply NoDup_app; [exact Hnd|apply number_from_ids_NoDup|].
    intros k Hk Hk'. apply in_map_iff in Hk. destruct Hk as (r & <- & Hr).
    apply in_map_iff in Hk'. destruct Hk' as (b & Hb & Hin).
    apply number_from_In in Hin. destruct Hin as (k & x & -> & _ & Hk).
    rewrite id_mk in Hb. specialize (Hlt r Hr). lia.
  - intros r Hr. apply in_app_iff in Hr. destruct Hr as [Hr|Hr].
    + specialize (Hlt r Hr). lia.
    + apply number_from_In in Hr. destruct Hr as (k & x & -> & _ & Hk).
      rewrite id_mk. lia.
Qed.

End NumberFrom.

Lemma find_app_first {A} (p : A -> bool) (l1 l2 : list A) (x : A) :
  find p l1 = Some x -> find p (l1 ++ l2) = Some x.
Proof.
  induction l1 as [|a l1 IH]; simpl; [discriminate|].
  destruct (p a); auto.
Qed.

Lemma find_unique_key (l : id_map) (k : cell) (v : Z) :
  NoDup (map fst l) -> In (k, v) l ->
  find (fun kv => if cell_eq_dec (fst kv) k then true else false) l = Some (k, v).
Proof.
  induction l as [|[k' v'] l IH]; intros Hnd Hin; [destruct Hin|].
  simpl in *. inversion Hnd as [|? ? Hk' Hnd']. subst.
  destruct (cell_eq_dec k' k) as [->|Hne].
  - destruct Hin as [E|Hin]; [now rewrite E|].
    exfalso. apply Hk'. apply in_map_iff. now exists (k, v).
  - destruct Hin as [E|Hin]; [inversion E; congruence|]. now apply IH.
Qed.

Lemma restaurants_id_map_rows (l : list Restaurant) :
  restaurants_id_map l = map (fun r => (r_name r, r_id r)) l.
Proof.
  unfold restaurants_id_map. rewrite <- (map_map r_name (fun n => n)) at 1.
  induction l as [|r l IH]; simpl; [reflexivity|]. f_equal.
  rewrite map_map in IH. rewrite map_map. exact IH.
Qed.

(** The mapping built from a table whose last rows have distinct names
    sends each of those names to the id of its last row. *)
Lemma dict_get_last_rows (old new : list Restaurant) (r : Restaurant) :
  NoDup (map r_name new) -> In r new ->
  dict_get (restaurants_id_map (old ++ new)) (r_name r) = Some (r_id r).
Proof.
  intros Hnd Hr. unfold dict_get.
  rewrite restaurants_id_map_rows, map_app, rev_app_distr.
  rewrite (find_app_first _ _ _ (r_name r, r_id r)); [reflexivity|].
  apply find_unique_key.
  - rewrite <- map_rev, map_map. simpl. rewrite map_rev.
    apply NoDup_rev. exact Hnd.
  - apply in_rev. rewrite rev_involutive. apply in_map_iff. now exists r.
Qed.

(** ** The writes *)


Lemma write_menu_items_ok (db db2 : database) (frame : list menu_item_fk) :
  write_menu_items db frame = Ok db2 ->
  db2 = {| restaurants_tbl := restaurants_tbl db;
           menu_items_tbl := append mk_MenuItem (menu_items_tbl db) frame;
           ingredients_tbl := ingredients_tbl db;
           allergens_tbl := allergens_tbl db;
           pictures_tbl := pictures_tbl db |}
  /\ forall r, In r frame ->
       exists x, In x (rows (restaurants_tbl db))
                 /\ restaurant_id r = Some (r_id x).
Proof.
  unfold write_menu_items. intros H.
  destruct (not_null restaurant_id frame) eqn:Hn; [|discriminate].
  destruct (references restaurant_id _ frame) eqn:Hr; [|discriminate].
  simpl in H. inversion H. split; [reflexivity|].
  intros r Hin.
  unfold not_null in Hn. rewrite forallb_forall in Hn. specialize (Hn r Hin).
  unfold references in Hr. rewrite forallb_forall in Hr. specialize (Hr r Hin).
  destruct (restaurant_id r) as [i|]; [|discriminate].
  apply existsb_exists in Hr. destruct Hr as (k & Hk & E).
  apply Z.eqb_eq in E. subst k.
  apply in_map_iff in Hk. destruct Hk as (x & <- & Hx). now exists x.
Qed.



Section LoaderRuns.

Variable cast_int64 : string -> option Z.
Variable o : row_order.


(** The shape of a run of the loader that completes. *)
Lemma load_ok db clean db' :
  load cast_int64 o db clean = Ok db' ->
  let db1 := write_restaurants db (restaurants o clean) in
  let m := restaurants_id_map (rows (restaurants_tbl db1)) in
  let frame := menu_items_fk cast_int64 (menu_items o clean) m in
  let pk := rows (append mk_MenuItem (menu_items_tbl db) frame) in
  restaurants_tbl db' = restaurants_tbl db1
  /\ menu_items_tbl db' = append mk_MenuItem (menu_items_tbl db) frame
  /\ (forall r, In r frame ->
        exists x, In x (rows (restaurants_tbl db1))
                  /\ restaurant_id r = Some (r_id x))
  /\ (exists f, rows (ingredients_tbl db')
                = rows (ingredients_tbl db)
                  ++ number_from mk_Child (next_id (ingredients_tbl db)) f
        /\ next_id (ingredients_tbl db')
           = next_id (ingredients_tbl db) + Z.of_nat (length f)
        /\ Forall (fun r => exists mi, In mi pk /\ item_id r = Some (m_id mi)) f)
  /\ (exists f, rows (allergens_tbl db')
                = rows (allergens_tbl db)
                  ++ number_from mk_Child (next_id (allergens_tbl db)) f
        /\ next_id (allergens_tbl db')
           = next_id (allergens_tbl db) + Z.of_nat (length f)
        /\ Forall (fun r => exists mi, In mi pk /\ item_id r = Some (m_id mi)) f)
  /\ (exists f, rows (pictures_tbl db')
                = rows (pictures_tbl db)
                  ++ number_from mk_Child (next_id (pictures_tbl db)) f
        /\ next_id (pictures_tbl db')
           = next_id (pictures_tbl db) + Z.of_nat (length f)
        /\ Forall (fun r => exists mi, In mi pk /\ item_id r = Some (m_id mi)) f).
Proof.
  intros H db1 m frame pk.
  destruct (load_inv cast_int64 o db clean db' H)
    as (E2 & _ & Hr & Hm & Ei & Ea & Ep).
  apply write_menu_items_ok in E2. destruct E2 as [_ Hfk].
  pose proof (write_child_ok _ _ _ _ Ei) as [Hri Hfi].
  pose proof (write_child_ok _ _ _ _ Ea) as [Hra Hfa].
  pose proof (write_child_ok _ _ _ _ Ep) as [Hrp Hfp].
  assert (forall pk t f t', write_child pk t f = Ok t' ->
            next_id t' = next_id t + Z.of_nat (length f)) as Hnext.
  { intros pk0 t f t' Hw. unfold write_child in Hw.
    destruct (_ && _) in Hw; [|discriminate]. inversion Hw. reflexivity. }
  split; [exact Hr|]. split; [exact Hm|]. split; [exact Hfk|].
  split; [|split].
  - eexists. split; [exact Hri|]. split; [exact (Hnext _ _ _ _ Ei)|exact Hfi].
  - eexists. split; [exact Hra|]. split; [exact (Hnext _ _ _ _ Ea)|exact Hfa].
  - eexists. split; [exact Hrp|]. split; [exact (Hnext _ _ _ _ Ep)|exact Hfp].
Qed.




End LoaderRuns.

(** ** The loader, run by run *)

(** Read-after-write.  Once a frame of distinct names is appended to the
    restaurants table, the mapping built from the table read back sends
    each of these names to the id of the row just inserted for it: an id
    drawn from the sequence in this run, whatever rows of that name the
    table already held. *)
Theorem read_back_resolves_to_new_row :
  forall (db : database) (names : list cell) (n : cell),
    NoDup names -> In n names ->
    let db1 := write_restaurants db names in
    exists i,
      dict_get (restaurants_id_map (rows (restaurants_tbl db1))) n = Some i
      /\ next_id (restaurants_tbl db) <= i < next_id (restaurants_tbl db1)
      /\ In {| r_id := i; r_name := n |} (rows (restaurants_tbl db1)).
Proof.
  intros db names n Hnd Hn. simpl.
  destruct (number_from_covers mk_Restaurant (next_id (restaurants_tbl db))
              names n Hn) as (k & Hk & Hr).
  exists k. split; [|split; [exact Hr|]].
  - apply (dict_get_last_rows (rows (restaurants_tbl db)) _ (mk_Restaurant k n));
      [|exact Hk].
    now rewrite names_of_number_from.
  - apply in_or_app. right. exact Hk.
Qed.

(** The table already holds 'joe's diner' under id 1; the two names
    appended get ids 2 and 3, and 'joe's diner' now resolves to 3. *)
Lemma read_back_resolves_witness :
  exists i,
    dict_get (restaurants_id_map
                (rows (restaurants_tbl
                         (write_restaurants lowercase_db
                            [Some "Joe's Diner"; Some "joe's diner"]))))
             (Some "joe's diner") = Some i
    /\ 2 <= i < 4
    /\ In {| r_id := i; r_name := Some "joe's diner" |}
          (rows (restaurants_tbl
                   (write_restaurants lowercase_db
                      [Some "Joe's Diner"; Some "joe's diner"]))).
Proof.
  apply (read_back_resolves_to_new_row lowercase_db
           [Some "Joe's Diner"; Some "joe's diner"] (Some "joe's diner")).
  - repeat constructor; simpl; intuition discriminate.
  - right. now left.
Defined.





(** The loader only appends.  After a run that completes, each of the five
    tables holds the rows it held, in place, followed by the rows of this
    run: one restaurant row per name of the restaurants frame, one
    menu-item row per row of the menu-items frame. *)
Theorem load_only_appends :
  forall (cast_int64 : string -> option Z) (o : row_order)
         (db db' : database) (clean : list clean_row),
    load cast_int64 o db clean = Ok db' ->
    (exists new, rows (restaurants_tbl db') = rows (restaurants_tbl db) ++ new
                 /\ map r_name new = restaurants o clean)
    /\ (exists new, rows (menu_items_tbl db') = rows (menu_items_tbl db) ++ new
                    /\ length new = length (menu_items o clean))
    /\ (exists new, rows (ingredients_tbl db') = rows (ingredients_tbl db) ++ new)
    /\ (exists new, rows (allergens_tbl db') = rows (allergens_tbl db) ++ new)
    /\ (exists new, rows (pictures_tbl db') = rows (pictures_tbl db) ++ new).
Proof.
  intros cast_int64 o db db' clean H.
  destruct (load_ok cast_int64 o db clean db' H)
    as (Hr & Hm & _ & (fi & Hi & _) & (fa & Ha & _) & (fp & Hp & _)).
  rewrite Hr, Hm. repeat split.
  - eexists. split; [reflexivity|]. apply names_of_number_from.
  - eexists. split; [reflexivity|].
    rewrite length_number_from. unfold menu_items_fk.
    rewrite (Permutation_length (sort_by_perm _ _)). apply length_map.
  - eexists. exact Hi.
  - eexists. exact Ha.
  - eexists. exact Hp.
Qed.

Lemma load_only_appends_witness :
  exists db',
    load decimal_int64 first_seen lowercase_db sample_clean = Ok db'
    /\ exists new, rows (restaurants_tbl db')
                   = rows (restaurants_tbl lowercase_db) ++ new
                   /\ map r_name new = restaurants first_seen sample_clean.
Proof.
  eexists. split; [reflexivity|].
  apply (load_only_appends decimal_int64 first_seen lowercase_db _ sample_clean
           eq_refl).
Defined.

(** Referential integrity is kept.  If every [restaurant_id] of the
    menu-items table names a restaurant row and every [item_id] of the three
    child tables names a menu-item row, the same holds after a run that
    completes. *)
Theorem load_keeps_referential_integrity :
  forall (cast_int64 : string -> option Z) (o : row_order)
         (db db' : database) (clean : list clean_row),
    referential_integrity db ->
    load cast_int64 o db clean = Ok db' ->
    referential_integrity db'.
Proof.
  intros cast_int64 o db db' clean (Hmi & Hi & Ha & Hp) H.
  destruct (load_ok cast_int64 o db clean db' H)
    as (Hr & Hm & Hfk & (fi & Ei & _ & Hfi) & (fa & Ea & _ & Hfa)
        & (fp & Ep & _ & Hfp)).
  assert (forall t t' f,
            names_menu_item (rows (menu_items_tbl db)) t ->
            rows t' = rows t ++ number_from mk_Child (next_id t) f ->
            Forall (fun r => exists mi,
                      In mi (rows (menu_items_tbl db')) /\ item_id r = Some (m_id mi)) f ->
            names_menu_item (rows (menu_items_tbl db')) t') as Hchild.
  { intros t t' f Hold Erows Hf c Hc. rewrite Erows in Hc.
    apply in_app_iff in Hc. destruct Hc as [Hc|Hc].
    - destruct (Hold c Hc) as (mi & Hin & E). exists mi. split; [|exact E].
      rewrite Hm. simpl. apply in_or_app. now left.
    - apply number_from_In in Hc. destruct Hc as (k & r & -> & Hr' & _).
      rewrite Forall_forall in Hf. exact (Hf r Hr'). }
  rewrite <- Hm in Hfi, Hfa, Hfp.
  split; [|split; [|split]].
  - intros mi Hin. rewrite Hm in Hin. simpl in Hin.
    apply in_app_iff in Hin. rewrite Hr. destruct Hin as [Hin|Hin].
    + destruct (Hmi mi Hin) as (r & Hr' & E). exists r. split; [|exact E].
      simpl. apply in_or_app. now left.
    + apply number_from_In in Hin. destruct Hin as (k & r & -> & Hr' & _).
      exact (Hfk r Hr').
  - exact (Hchild _ _ fi Hi Ei Hfi).
  - exact (Hchild _ _ fa Ha Ea Hfa).
  - exact (Hchild _ _ fp Hp Ep Hfp).
Qed.

Lemma load_keeps_referential_integrity_witness :
  exists db',
    load decimal_int64 first_seen empty_database sample_clean = Ok db'
    /\ referential_integrity db'.
Proof.
  eexists. split; [reflexivity|].
  apply (load_keeps_referential_integrity decimal_int64 first_seen
           empty_database _ sample_clean); [|reflexivity].
  repeat split; intros ? [].
Defined.

(** Primary keys stay distinct.  If in each table the ids are distinct and
    below the table's sequence, the same holds after a run that completes:
    a generated id never repeats one already in the table. *)
Theorem load_keeps_keys_unique :
  forall (cast_int64 : string -> option Z) (o : row_order)
         (db db' : database) (clean : list clean_row),
    keys_unique db ->
    load cast_int64 o db clean = Ok db' ->
    keys_unique db'.
Proof.
  intros cast_int64 o db db' clean (Kr & Km & Ki & Ka & Kp) H.
  destruct (load_ok cast_int64 o db clean db' H)
    as (Hr & Hm & _ & (fi & Ei & Ni & _) & (fa & Ea & Na & _) & (fp & Ep & Np & _)).
  assert (forall t t' f, keyed c_id t ->
            rows t' = rows t ++ number_from mk_Child (next_id t) f ->
            next_id t' = next_id t + Z.of_nat (length f) ->
            keyed c_id t') as Hchild.
  { intros t t' f K Erows Enext.
    pose proof (append_keyed mk_Child c_id (fun _ _ => eq_refl) t f K) as [Hnd Hlt].
    unfold keyed. rewrite Erows, Enext. split; [exact Hnd|exact Hlt]. }
  unfold keys_unique. rewrite Hr, Hm. repeat split.
  - apply (append_keyed mk_Restaurant r_id (fun _ _ => eq_refl) _ _ Kr).
  - apply (append_keyed mk_Restaurant r_id (fun _ _ => eq_refl) _ _ Kr).
  - apply (append_keyed mk_MenuItem m_id (fun _ _ => eq_refl) _ _ Km).
  - apply (append_keyed mk_MenuItem m_id (fun _ _ => eq_refl) _ _ Km).
  - apply (Hchild _ _ _ Ki Ei Ni).
  - apply (Hchild _ _ _ Ki Ei Ni).
  - apply (Hchild _ _ _ Ka Ea Na).
  - apply (Hchild _ _ _ Ka Ea Na).
  - apply (Hchild _ _ _ Kp Ep Np).
  - apply (Hchild _ _ _ Kp Ep Np).
Qed.

Lemma load_keeps_keys_unique_witness :
  exists db',
    load decimal_int64 first_seen empty_database sample_clean = Ok db'
    /\ keys_unique db'.
Proof.
  eexists. split; [reflexivity|].
  apply (load_keeps_keys_unique decimal_int64 first_seen
           empty_database _ sample_clean); [|reflexivity].
  repeat split; try constructor; intros ? [].
Defined.





(** ** What a row is linked to *)

Lemma str_key_eqb_true (a b : cell) :
  str_key_eqb a b = true -> a = b /\ a <> None.
Proof.
  destruct a as [x|], b as [y|]; simpl; try discriminate.
  intros H. apply String.eqb_eq in H. subst. split; [reflexivity|discriminate].
Qed.

Lemma int_key_eqb_true (a b : option Z) :
  int_key_eqb a b = true -> a = b /\ a <> None.
Proof.
  destruct a as [x|], b as [y|]; simpl; try discriminate.
  intros H. apply Z.eqb_eq in H. subst. split; [reflexivity|discriminate].
Qed.

Section Links.

Variable cast_int64 : string -> option Z.
Variable o : row_order.

(** The restaurant row a cleaned row resolves to after the read-back: the
    row inserted for its name in this run. *)
Lemma resolved_restaurant db clean c :
  In c clean ->
  let db1 := write_restaurants db (restaurants o clean) in
  exists i,
    replace cast_int64 (restaurants_id_map (rows (restaurants_tbl db1)))
      (restaurant c) = Some i
    /\ next_id (restaurants_tbl db) <= i
    /\ In {| r_id := i; r_name := restaurant c |} (rows (restaurants_tbl db1)).
Proof.
  intros Hc. simpl.
  assert (In (restaurant c) (restaurants o clean)) as Hn
    by (apply restaurants_In; eauto).
  destruct (number_from_covers mk_Restaurant (next_id (restaurants_tbl db))
              (restaurants o clean) (restaurant c) Hn) as (k & Hk & Hr).
  exists k. split; [|split; [lia|apply in_or_app; now right]].
  unfold replace.
  rewrite (dict_get_last_rows (rows (restaurants_tbl db)) _
             (mk_Restaurant k (restaurant c))); [reflexivity| |exact Hk].
  rewrite names_of_number_from. apply restaurants_NoDup.
Qed.

(** The loader's three child writes, frame by frame. *)
Lemma load_ok_children db clean db' :
  load cast_int64 o db clean = Ok db' ->
  let db1 := write_restaurants db (restaurants o clean) in
  let m := restaurants_id_map (rows (restaurants_tbl db1)) in
  let pk := rows (menu_items_tbl db') in
  let written (children : list child) (t t' : table Child) :=
    rows t' = rows t
              ++ number_from mk_Child (next_id t)
                   (child_fk_of cast_int64 children m pk)
    /\ Forall (fun r => item_id r <> None)
         (child_fk_of cast_int64 children m pk) in
  written (ingredients_of o clean) (ingredients_tbl db) (ingredients_tbl db')
  /\ written (allergens_of o clean) (allergens_tbl db) (allergens_tbl db')
  /\ written (pictures o clean) (pictures_tbl db) (pictures_tbl db').
Proof.
  intros H db1 m pk written.
  destruct (load_inv cast_int64 o db clean db' H)
    as (_ & _ & _ & Hm & Ei & Ea & Ep).
  rewrite <- Hm in Ei, Ea, Ep.
  assert (forall pk t f t', write_child pk t f = Ok t' ->
            rows t' = rows t ++ number_from mk_Child (next_id t) f
            /\ Forall (fun r => item_id r <> None) f) as Hw.
  { intros pk0 t f t' Hwc. apply write_child_ok in Hwc. destruct Hwc as [Hr Hf].
    split; [exact Hr|]. eapply Forall_impl; [|exact Hf].
    intros r (mi & _ & ->). discriminate. }
  split; [exact (Hw _ _ _ _ Ei)|]. split; [exact (Hw _ _ _ _ Ea)|exact (Hw _ _ _ _ Ep)].
Qed.

(** A child row written from a frame of triples is linked to a menu item of
    its own product and of its own restaurant. *)
Lemma written_child_linked db clean (f : clean_row -> cell)
    (pk : list MenuItem) (r : child_fk) :
  let db1 := write_restaurants db (restaurants o clean) in
  let m := restaurants_id_map (rows (restaurants_tbl db1)) in
  In r (child_fk_of cast_int64
          (unique o child_eq_dec
             (map (fun c => {| product := name c; ch_restaurant := restaurant c;
                               ch_text := f c |}) clean)) m pk) ->
  item_id r <> None ->
  exists mi c i,
    In mi pk /\ In c clean
    /\ item_id r = Some (m_id mi) /\ fk_text r = f c
    /\ m_name mi = name c /\ name c <> None
    /\ m_restaurant_id mi = Some i
    /\ next_id (restaurants_tbl db) <= i
    /\ In {| r_id := i; r_name := restaurant c |} (rows (restaurants_tbl db1)).
Proof.
  intros db1 m Hr Hnn. unfold child_fk_of in Hr.
  apply in_map_iff in Hr. destruct Hr as (j & <- & Hj).
  pose proof (in_left_join_fst _ _ _ _ Hj) as Hf.
  pose proof (in_left_join_snd _ _ _ _ Hj) as Hs.
  unfold right_col in *. simpl in *.
  destruct (snd j) as [mi|]; [|now destruct Hnn].
  destruct Hs as [Hmi Hm].
  apply in_map_iff in Hf. destruct Hf as (ch & Ej & Hch).
  apply unique_In, in_map_iff in Hch. destruct Hch as (c & <- & Hc).
  rewrite <- Ej in Hm |- *. unfold on_product_restaurant in Hm. simpl in Hm.
  apply andb_prop in Hm. destruct Hm as [Hn Hi].
  apply str_key_eqb_true in Hn. destruct Hn as [En Hn].
  apply int_key_eqb_true in Hi. destruct Hi as [Ei _].
  destruct (resolved_restaurant db clean c Hc) as (i & Ri & Hge & Hrow).
  exists mi, c, i. simpl. repeat split; auto.
  rewrite <- Ei. exact Ri.
Qed.

End Links.

(** Every cleaned row is loaded, under its own restaurant.  After a run
    that completes, the menu-items table holds for each row of the cleaned
    table a row with its name and category, whose [restaurant_id] is the id
    of the restaurant row inserted in this run for its restaurant name. *)
Theorem load_links_menu_items_to_their_restaurant :
  forall (cast_int64 : string -> option Z) (o : row_order)
         (db db' : database) (clean : list clean_row),
    load cast_int64 o db clean = Ok db' ->
    forall c, In c clean ->
      exists mi i,
        In mi (rows (menu_items_tbl db'))
        /\ m_name mi = name c /\ m_category mi = category c
        /\ m_restaurant_id mi = Some i
        /\ next_id (restaurants_tbl db) <= i
        /\ In {| r_id := i; r_name := restaurant c |} (rows (restaurants_tbl db')).
Proof.
  intros cast_int64 o db db' clean H c Hc.
  destruct (load_ok cast_int64 o db clean db' H) as (Hr & Hm & _).
  destruct (resolved_restaurant cast_int64 o db clean c Hc) as (i & Ri & Hge & Hrow).
  set (m := restaurants_id_map
              (rows (restaurants_tbl (write_restaurants db (restaurants o clean)))))
    in *.
  assert (In {| restaurant_id := Some i; fk_name := name c;
                fk_category := category c |}
             (menu_items_fk cast_int64 (menu_items o clean) m)) as Hin.
  { unfold menu_items_fk.
    apply (Permutation_in _ (Permutation_sym (sort_by_perm _ _))).
    apply in_map_iff.
    exists {| mi_name := name c; mi_restaurant := restaurant c;
              mi_category := category c |}.
    split; [simpl; now rewrite Ri|]. apply unique_In, in_map_iff. eauto. }
  destruct (number_from_covers mk_MenuItem (next_id (menu_items_tbl db)) _ _ Hin)
    as (k & Hk & _).
  eexists. exists i. rewrite Hm, Hr. split.
  - simpl. apply in_or_app. right. exact Hk.
  - simpl. repeat split; auto.
Qed.

Lemma load_links_menu_items_witness :
  exists mi i,
    In mi [{| m_id := 1; m_restaurant_id := Some 2; m_name := Some "Burger";
              m_category := Some "Main" |};
           {| m_id := 2; m_restaurant_id := Some 2; m_name := Some "Fries";
              m_category := Some "Side" |}]
    /\ m_name mi = Some "Fries" /\ m_category mi = Some "Side"
    /\ m_restaurant_id mi = Some i
    /\ 2 <= i
    /\ In {| r_id := i; r_name := Some "Joe's Diner" |}
          [{| r_id := 1; r_name := Some "joe's diner" |};
           {| r_id := 2; r_name := Some "Joe's Diner" |}].
Proof.
  apply (load_links_menu_items_to_their_restaurant decimal_int64 first_seen
           lowercase_db _ sample_clean eq_refl
           (project fries (strptime_padded "New - 03/15/2024"))).
  right. now left.
Defined.

(** Every child row of a run is linked to the right parent.  After a run
    that completes, each row of the ingredients, allergens and pictures
    tables either was there before or carries the text of a cleaned row and
    the id of a menu-item row that has this cleaned row's name and, as
    [restaurant_id], the id of the restaurant row inserted in this run for
    its restaurant. *)
Theorem load_links_children_to_their_menu_item :
  forall (cast_int64 : string -> option Z) (o : row_order)
         (db db' : database) (clean : list clean_row),
    load cast_int64 o db clean = Ok db' ->
    let linked (f : clean_row -> cell) (t t' : table Child) :=
      forall ch, In ch (rows t') ->
        In ch (rows t)
        \/ exists mi c i,
             In mi (rows (menu_items_tbl db')) /\ In c clean
             /\ c_item_id ch = Some (m_id mi) /\ c_text ch = f c
             /\ m_name mi = name c /\ name c <> None
             /\ m_restaurant_id mi = Some i
             /\ next_id (restaurants_tbl db) <= i
             /\ In {| r_id := i; r_name := restaurant c |}
                   (rows (restaurants_tbl db')) in
    linked ingredients (ingredients_tbl db) (ingredients_tbl db')
    /\ linked allergens (allergens_tbl db) (allergens_tbl db')
    /\ linked picture (pictures_tbl db) (pictures_tbl db').
Proof.
  intros cast_int64 o db db' clean H linked.
  destruct (load_ok cast_int64 o db clean db' H) as (Hr & _).
  destruct (load_ok_children cast_int64 o db clean db' H)
    as ((Ei & Fi) & (Ea & Fa) & (Ep & Fp)).
  assert (forall f t t',
            rows t' = rows t
                      ++ number_from mk_Child (next_id t)
                           (child_fk_of cast_int64
                              (unique o child_eq_dec
                                 (map (fun c => {| product := name c;
                                                   ch_restaurant := restaurant c;
                                                   ch_text := f c |}) clean))
                              (restaurants_id_map
                                 (rows (restaurants_tbl
                                          (write_restaurants db (restaurants o clean)))))
                              (rows (menu_items_tbl db'))) ->
            Forall (fun r => item_id r <> None)
              (child_fk_of cast_int64
                 (unique o child_eq_dec
                    (map (fun c => {| product := name c;
                                      ch_restaurant := restaurant c;
                                      ch_text := f c |}) clean))
                 (restaurants_id_map
                    (rows (restaurants_tbl
                             (write_restaurants db (restaurants o clean)))))
                 (rows (menu_items_tbl db'))) ->
            linked f t t') as Hl.
  { intros f t t' Erows Hnn ch Hch. rewrite Erows in Hch.
    apply in_app_iff in Hch. destruct Hch as [Hch|Hch]; [now left|right].
    apply number_from_In in Hch. destruct Hch as (k & r & -> & Hin & _).
    rewrite Forall_forall in Hnn.
    destruct (written_child_linked cast_int64 o db clean f _ r Hin (Hnn r Hin))
      as (mi & c & i & H1 & H2 & H3 & H4 & H5 & H6 & H7 & H8 & H9).
    exists mi, c, i. rewrite Hr. simpl. repeat split; auto. }
  split; [exact (Hl ingredients _ _ Ei Fi)|].
  split; [exact (Hl allergens _ _ Ea Fa)|exact (Hl picture _ _ Ep Fp)].
Qed.

Lemma load_links_children_witness :
  let ch := {| c_id := 2; c_item_id := Some 2; c_text := Some "potato, salt" |} in
  In ch (rows (ingredients_tbl empty_database))
  \/ exists mi c i,
       In mi [{| m_id := 1; m_restaurant_id := Some 1; m_name := Some "Burger";
                 m_category := Some "Main" |};
              {| m_id := 2; m_restaurant_id := Some 1; m_name := Some "Fries";
                 m_category := Some "Side" |}]
       /\ In c sample_clean
       /\ c_item_id ch = Some (m_id mi) /\ c_text ch = ingredients c
       /\ m_name mi = name c /\ name c <> None
       /\ m_restaurant_id mi = Some i
       /\ 1 <= i
       /\ In {| r_id := i; r_name := restaurant c |}
             [{| r_id := 1; r_name := Some "Joe's Diner" |}].
Proof.
  apply (proj1 (load_links_children_to_their_menu_item decimal_int64 first_seen
                  empty_database _ sample_clean eq_refl)).
  right. now left.
Defined.

(** ** Running the job again *)



(** ** The reference sheet *)

Lemma filter_at_most_one {A K} (key : A -> K) (p : A -> bool) (k : K)
    (l : list A) :
  NoDup (map key l) -> (forall y, In y l -> p y = true -> key y = k) ->
  (length (filter p l) <= 1)%nat.
Proof.
  induction l as [|a l IH]; intros Hnd Hk; [simpl; lia|].
  inversion Hnd as [|? ? Ha Hnd']. subst. simpl.
  assert (length (filter p l) <= 1)%nat as Hl.
  { apply IH; [exact Hnd'|]. intros y Hy. apply Hk. now right. }
  destruct (p a) eqn:Pa; [|exact Hl].
  assert (filter p l = []) as ->; [|simpl; lia].
  destruct (filter p l) as [|b t] eqn:E; [reflexivity|].
  exfalso. assert (In b (filter p l)) as Hb by (rewrite E; now left).
  apply filter_In in Hb. destruct Hb as [Hb Pb].
  apply Ha. rewrite (Hk a (or_introl eq_refl) Pa), <- (Hk b (or_intror Hb) Pb).
  now apply in_map.
Qed.

Lemma left_join_one_to_one {L R} (matches : L -> R -> bool) (l : list L)
    (r : list R) :
  (forall x, In x l -> (length (filter (matches x) r) <= 1)%nat) ->
  length (left_join matches l r) = length l.
Proof.
  induction l as [|x l IH]; intros H; [reflexivity|].
  rewrite left_join_cons, length_app, IH by (intros y Hy; apply H; now right).
  specialize (H x (or_introl eq_refl)). unfold join_rows.
  destruct (filter (matches x) r) as [|y [|z t]]; simpl in *; lia.
Qed.

(** A reference sheet that lists no (restaurant, category) pair twice never
    makes the Cleaner fail: the join keeps the row count of the menu-items
    sheet, and the Cleaner returns as soon as every date string parses. *)
Theorem cleaner_returns_with_distinct_reference_keys :
  forall (strptime : string -> option datetime) (o : row_order)
         (raw : list menu_item_raw) (cats : list category_raw),
    NoDup (map (fun c => (Restaurant_name c, Restaurant_original_category c)) cats) ->
    length (left_join on_store_category raw cats) = length raw
    /\ ((forall r x, In r raw -> blank_header r = Some x -> strptime x <> None) ->
        exists out, menu_items_clean strptime o raw cats = Ok out).
Proof.
  intros strptime o raw cats Hnd.
  assert (length (left_join on_store_category raw cats) = length raw) as Hlen.
  { apply left_join_one_to_one. intros r _.
    apply (filter_at_most_one
             (fun c => (Restaurant_name c, Restaurant_original_category c))
             _ (Store r, Product_category r)); [exact Hnd|].
    intros y _ Hm. unfold on_store_category in Hm.
    apply andb_prop in Hm. destruct Hm as [H1 H2].
    apply str_key_eqb_true in H1. apply str_key_eqb_true in H2.
    destruct H1 as [-> _], H2 as [-> _]. reflexivity. }
  split; [exact Hlen|].
  intros Hparse. eexists.
  apply (menu_items_clean_returns strptime o raw cats Hparse Hlen).
Qed.

Lemma cleaner_returns_with_distinct_keys_witness :
  length (left_join on_store_category [burger; fries; nameless] [entrees; sides])
  = 3%nat.
Proof.
  apply (cleaner_returns_with_distinct_reference_keys strptime_padded first_seen
           [burger; fries; nameless] [entrees; sides]).
  repeat constructor; simpl; intuition discriminate.
Defined.
